(** * Authentication core of the Freelancer Feedback Assistant backend

    A shallow embedding of
      - [backend/app/core/security.py]   (password hashing, JWT handling),
      - [backend/app/core/config.py]     (the settings the core reads),
      - [backend/app/schemas/user.py]    (request validation, response shape),
      - [backend/app/api/deps.py]        (identity resolution),
      - [backend/app/api/v1/endpoints/auth.py] (register, login, refresh),
    followed by the properties the specification states about them.

    Conventions.
      - Python [bytes] are [list Z] (each element in [0, 256)); Python [str]
        values whose encoding matters (passwords, stored hashes) are lists of
        code points, [text := list Z]; all other strings (e-mail addresses,
        claim names, messages) are [string].
      - A raised exception is the [Raise] constructor of [result]; handlers
        run in the monad [M] over [world], which holds the user table and the
        three ambient sources the code draws from: the UTC clock
        ([datetime.utcnow]), the entropy pool ([os.urandom]) and the
        identifiers the storage layer hands out.
      - Third-party primitives (the Blowfish key schedule behind bcrypt, the
        MAC behind the JWT signature, [uuid.UUID] parsing, Unicode character
        classes, e-mail validation) are fields of the class [Primitives]. *)

From Stdlib Require Import ZArith Lia List String Ascii.
From stdpp Require Import base option list strings gmap pretty.

Local Open Scope Z_scope.

(** ** Python values and exceptions *)

Definition bytes := list Z.
Definition text := list Z.
Definition UUID := Z.

Definition bytes_of_string (s : string) : bytes :=
  map (λ a, Z.of_N (N_of_ascii a)) (list_ascii_of_string s).

(** The values a decoded JSON claim can hold. *)
Inductive pyval :=
| PNone
| PStr (s : string)
| PInt (z : Z)
| PBool (b : bool).

Global Instance pyval_eq_dec : EqDecision pyval.
Proof. solve_decision. Defined.

(** [str(v)] as used by f-strings. *)
Definition py_str (v : pyval) : string :=
  match v with
  | PNone => "None"
  | PStr s => s
  | PInt z => pretty z
  | PBool true => "True"
  | PBool false => "False"
  end.

(** [d.get(k)] on a [Dict[str, Any]]. *)
Definition dict_get (d : gmap string pyval) (k : string) : pyval :=
  default PNone (d !! k).

Record HTTPException := mkHTTPException {
  status_code : Z;
  detail : string;
  headers : list (string * string)
}.

Global Instance HTTPException_eq_dec : EqDecision HTTPException.
Proof. solve_decision. Defined.

Inductive exn :=
| HTTPError (e : HTTPException)
| JWTError (msg : string)
| ValueError (msg : string)
| TypeError (msg : string)
| AttributeError (msg : string)
| UnicodeEncodeError
| UnicodeDecodeError
| RequestValidationError (errors : list string).

Global Instance exn_eq_dec : EqDecision exn.
Proof. solve_decision. Defined.

Inductive result (A : Type) :=
| Ok (a : A)
| Raise (e : exn).
Arguments Ok {A} a.
Arguments Raise {A} e.

Definition is_ok {A} (r : result A) : bool :=
  match r with Ok _ => true | Raise _ => false end.

Definition rbind {A B} (r : result A) (k : A → result B) : result B :=
  match r with
  | Ok a => k a
  | Raise e => Raise e
  end.

Definition of_option {A} (o : option A) (e : exn) : result A :=
  match o with
  | Some a => Ok a
  | None => Raise e
  end.

Declare Scope result_scope.
Delimit Scope result_scope with res.
Notation "'let?' x := r 'in' k" := (rbind r (λ x, k))
  (at level 10, x name, r at level 100, k at level 200) : result_scope.
Local Open Scope result_scope.

(** ** [str.encode('utf-8')] and [bytes.decode('utf-8')] *)

Definition utf8_encode_char (c : Z) : option bytes :=
  if c <? 0 then None
  else if c <? 0x80 then Some [c]
  else if c <? 0x800 then
    Some [Z.lor 0xC0 (Z.shiftr c 6); Z.lor 0x80 (Z.land c 0x3F)]
  else if c <? 0x10000 then
    if (0xD800 <=? c) && (c <=? 0xDFFF) then None
    else Some [Z.lor 0xE0 (Z.shiftr c 12);
               Z.lor 0x80 (Z.land (Z.shiftr c 6) 0x3F);
               Z.lor 0x80 (Z.land c 0x3F)]
  else if c <? 0x110000 then
    Some [Z.lor 0xF0 (Z.shiftr c 18);
          Z.lor 0x80 (Z.land (Z.shiftr c 12) 0x3F);
          Z.lor 0x80 (Z.land (Z.shiftr c 6) 0x3F);
          Z.lor 0x80 (Z.land c 0x3F)]
  else None.

Fixpoint utf8_encode (s : text) : option bytes :=
  match s with
  | [] => Some []
  | c :: s' =>
    match utf8_encode_char c, utf8_encode s' with
    | Some bs, Some rest => Some (bs ++ rest)
    | _, _ => None
    end
  end.

Definition str_encode (s : text) : result bytes :=
  of_option (utf8_encode s) UnicodeEncodeError.

Definition is_continuation (b : Z) : bool := (0x80 <=? b) && (b <? 0xC0).

Fixpoint utf8_decode (bs : bytes) : option text :=
  match bs with
  | [] => Some []
  | b0 :: r0 =>
    if b0 <? 0 then None
    else if b0 <? 0x80 then cons b0 <$> utf8_decode r0
    else if b0 <? 0xC2 then None
    else if b0 <? 0xE0 then
      match r0 with
      | b1 :: r1 =>
        if is_continuation b1
        then cons (Z.lor (Z.shiftl (Z.land b0 0x1F) 6) (Z.land b1 0x3F))
               <$> utf8_decode r1
        else None
      | _ => None
      end
    else if b0 <? 0xF0 then
      match r0 with
      | b1 :: b2 :: r2 =>
        let c := Z.lor (Z.shiftl (Z.land b0 0x0F) 12)
                   (Z.lor (Z.shiftl (Z.land b1 0x3F) 6) (Z.land b2 0x3F)) in
        if is_continuation b1 && is_continuation b2 && (0x800 <=? c)
           && negb ((0xD800 <=? c) && (c <=? 0xDFFF))
        then cons c <$> utf8_decode r2
        else None
      | _ => None
      end
    else if b0 <? 0xF5 then
      match r0 with
      | b1 :: b2 :: b3 :: r3 =>
        let c := Z.lor (Z.shiftl (Z.land b0 0x07) 18)
                   (Z.lor (Z.shiftl (Z.land b1 0x3F) 12)
                      (Z.lor (Z.shiftl (Z.land b2 0x3F) 6) (Z.land b3 0x3F))) in
        if is_continuation b1 && is_continuation b2 && is_continuation b3
           && (0x10000 <=? c) && (c <? 0x110000)
        then cons c <$> utf8_decode r3
        else None
      | _ => None
      end
    else None
  end.

Definition bytes_decode (bs : bytes) : result text :=
  of_option (utf8_decode bs) UnicodeDecodeError.

(** A string every code point of which is a Unicode scalar value: the
    strings that have a UTF-8 encoding. *)
Definition is_scalar (c : Z) : bool :=
  (0 <=? c) && (c <? 0x110000) && negb ((0xD800 <=? c) && (c <=? 0xDFFF)).

Definition valid_text (s : text) : Prop := forallb is_scalar s = true.

Definition is_ascii (c : Z) : Prop := 0 ≤ c < 128.

(** A check, by comparisons only, that [bs] is the encoding the decoder
    reads as the one character [c]; [char_roundtrips] applies it to what the
    encoder produces, and [holds_from f c n] tests [f] on the [n] integers
    from [c] on. *)
Definition decodes_to (c : Z) (bs : bytes) : bool :=
  match bs with
  | [b0] => (0 <=? b0) && (b0 <? 0x80) && (b0 =? c)
  | [b0; b1] =>
    (0xC2 <=? b0) && (b0 <? 0xE0) && is_continuation b1
    && (Z.lor (Z.shiftl (Z.land b0 0x1F) 6) (Z.land b1 0x3F) =? c)
  | [b0; b1; b2] =>
    (0xE0 <=? b0) && (b0 <? 0xF0) && is_continuation b1 && is_continuation b2
    && (0x800 <=? c) && negb ((0xD800 <=? c) && (c <=? 0xDFFF))
    && (Z.lor (Z.shiftl (Z.land b0 0x0F) 12)
          (Z.lor (Z.shiftl (Z.land b1 0x3F) 6) (Z.land b2 0x3F)) =? c)
  | [b0; b1; b2; b3] =>
    (0xF0 <=? b0) && (b0 <? 0xF5) && is_continuation b1 && is_continuation b2
    && is_continuation b3 && (0x10000 <=? c) && (c <? 0x110000)
    && (Z.lor (Z.shiftl (Z.land b0 0x07) 18)
          (Z.lor (Z.shiftl (Z.land b1 0x3F) 12)
             (Z.lor (Z.shiftl (Z.land b2 0x3F) 6) (Z.land b3 0x3F))) =? c)
  | _ => false
  end.

Definition char_roundtrips (c : Z) : bool :=
  match utf8_encode_char c with
  | Some bs => decodes_to c bs
  | None => negb (is_scalar c)
  end.

Fixpoint holds_from (f : Z → bool) (c : Z) (n : nat) (acc : bool) : bool :=
  match n with
  | O => acc
  | S k => holds_from f (c + 1) k (acc && f c)
  end.

(** ** Third-party primitives *)

Class Primitives := {
  (** The expensive key setup and encryption of bcrypt: cost, the salt as it
      appears in the hash string, the password bytes; the raw digest. *)
  eks_blowfish : Z → bytes → bytes → bytes;
  (** The MAC of a JWT: algorithm name, secret, signed claims. *)
  hmac_sign : string → string → gmap string pyval → bytes;
  (** [uuid.UUID(hex)] ([None] for the strings it raises [ValueError] on) and
      [str(uuid)]. *)
  uuid_parse : string → option UUID;
  uuid_str : UUID → string;
  (** [str.isupper], [str.islower], [str.isdigit] on one character. *)
  char_isupper : Z → bool;
  char_islower : Z → bool;
  char_isdigit : Z → bool;
  (** [EmailStr] validation: the normalised address, if valid. *)
  validate_email : string → option string;
  (** Comparison of the [users.id] column with a bound query parameter; the
      column type is declared in [app/db/types.py]. *)
  id_column_eq : UUID → pyval → bool
}.

(** ** The user table and the ambient world *)

(** Modelled from the spec: the [User] ORM class ([app/models/user.py]) is the
    Credential Record of the specification, with the further columns that
    [auth.py] writes and [UserResponse] reads. *)
Module User.
Record t := mk {
  id : UUID;
  email : string;
  full_name : option string;
  hashed_password : text;
  is_active : bool;
  is_verified : bool;
  created_at : Z;
  updated_at : Z;
  last_login : option Z
}.

Definition set_last_login (v : option Z) (u : t) : t :=
  mk (id u) (email u) (full_name u) (hashed_password u) (is_active u)
     (is_verified u) (created_at u) (updated_at u) v.
End User.

Record world := mkWorld {
  users : list User.t;          (* rows of the users table, oldest first *)
  utc_clock : nat → Z;          (* the n-th reading of the UTC clock, in seconds *)
  clock_reads : nat;
  entropy : nat → Z;            (* the entropy pool, one value per byte drawn *)
  entropy_used : nat;
  row_ids : nat → UUID;         (* the identifier given to the n-th new row *)
  rows_added : nat
}.

Definition set_users (us : list User.t) (w : world) : world :=
  mkWorld us (utc_clock w) (clock_reads w) (entropy w) (entropy_used w)
          (row_ids w) (rows_added w).

Definition M (A : Type) : Type := world → result A * world.

Definition ret {A} (a : A) : M A := λ w, (Ok a, w).
Definition raise {A} (e : exn) : M A := λ w, (Raise e, w).
Definition lift {A} (r : result A) : M A := λ w, (r, w).
Definition bind {A B} (m : M A) (k : A → M B) : M B :=
  λ w, match m w with
       | (Ok a, w') => k a w'
       | (Raise e, w') => (Raise e, w')
       end.

(** [try: m  except: h e] *)
Definition try_except {A} (m : M A) (h : exn → M A) : M A :=
  λ w, match m w with
       | (Ok a, w') => (Ok a, w')
       | (Raise e, w') => h e w'
       end.

Declare Scope M_scope.
Delimit Scope M_scope with M.
Notation "'let!' x := m 'in' k" := (bind m (λ x, k))
  (at level 10, x name, m at level 100, k at level 200) : M_scope.
Local Open Scope M_scope.

(** [datetime.utcnow()], as seconds since the epoch: [now w] is the next
    reading of the clock, [tick w] the world after it was taken. *)
Definition now (w : world) : Z := utc_clock w (clock_reads w).

Definition tick (w : world) : world :=
  mkWorld (users w) (utc_clock w) (S (clock_reads w)) (entropy w)
          (entropy_used w) (row_ids w) (rows_added w).

Definition utcnow : M Z := λ w, (Ok (now w), tick w).

(** [os.urandom(n)] *)
Definition next_entropy (n : nat) (w : world) : bytes :=
  map (λ i, entropy w (entropy_used w + i)%nat mod 256) (seq 0 n).

Definition use_entropy (n : nat) (w : world) : world :=
  mkWorld (users w) (utc_clock w) (clock_reads w) (entropy w)
          (entropy_used w + n)%nat (row_ids w) (rows_added w).

Definition os_urandom (n : nat) : M bytes :=
  λ w, (Ok (next_entropy n w), use_entropy n w).

(** ** The [bcrypt] package *)

(** Modelled from the spec: "Generates a fresh random salt per call; the salt
    and the cost factor are embedded in the output string", and verification
    "checks plaintext-derived hash against the stored hash".  The layout of
    the string, [$2b$<cost>$<22 salt characters><31 digest characters>], and
    the default cost of [gensalt] are those the package documents. *)
Module bcrypt.
Section bcrypt.
Context `{Primitives}.

Definition alphabet : bytes :=
  bytes_of_string
    "./ABCDEFGHIJKLMNOPQRSTUVWXYZabcdefghijklmnopqrstuvwxyz0123456789".

Definition in_alphabet (c : Z) : bool := existsb (Z.eqb c) alphabet.

Definition b64_char (n : Z) : Z := nth (Z.to_nat n) alphabet 46.

Fixpoint b64_encode (l : bytes) : bytes :=
  match l with
  | [] => []
  | [b0] =>
    [b64_char (Z.shiftr b0 2); b64_char (Z.shiftl (Z.land b0 3) 4)]
  | [b0; b1] =>
    [b64_char (Z.shiftr b0 2);
     b64_char (Z.lor (Z.shiftl (Z.land b0 3) 4) (Z.shiftr b1 4));
     b64_char (Z.shiftl (Z.land b1 15) 2)]
  | b0 :: b1 :: b2 :: rest =>
    [b64_char (Z.shiftr b0 2);
     b64_char (Z.lor (Z.shiftl (Z.land b0 3) 4) (Z.shiftr b1 4));
     b64_char (Z.lor (Z.shiftl (Z.land b1 15) 2) (Z.shiftr b2 6));
     b64_char (Z.land b2 63)] ++ b64_encode rest
  end.

Definition two_digits (n : Z) : bytes := [48 + n / 10; 48 + n mod 10].

Definition is_digit (c : Z) : bool := (48 <=? c) && (c <=? 57).

Definition parse_decimal (ds : bytes) : option Z :=
  match ds with
  | [] => None
  | _ => if forallb is_digit ds
         then Some (fold_left (λ acc d, 10 * acc + (d - 48)) ds 0)
         else None
  end.

Fixpoint split_on (d : Z) (l : bytes) : list bytes :=
  match l with
  | [] => [[]]
  | x :: r =>
    if x =? d then [] :: split_on d r
    else match split_on d r with
         | h :: t => (x :: h) :: t
         | [] => [[x]]
         end
  end.

Definition nonempty (p : bytes) : bool :=
  match p with [] => false | _ => true end.

Definition versions : list bytes :=
  map bytes_of_string ["2a"; "2b"; "2x"; "2y"]%string.

(** Version, cost and the text after the last [$] of a salt or of a hash. *)
Definition parse_salt (salt : bytes) : option (bytes * Z * bytes) :=
  match List.filter nonempty (split_on 36 salt) with
  | [ver; cost; rest] =>
    if bool_decide (ver ∈ versions) then
      match parse_decimal cost with
      | Some c => if (22 <=? length rest)%nat then Some (ver, c, rest) else None
      | None => None
      end
    else None
  | _ => None
  end.

Definition hashpw (password salt : bytes) : result bytes :=
  match parse_salt salt with
  | None => Raise (ValueError "Invalid salt")
  | Some (ver, cost, rest) =>
    let salt22 := take 22 rest in
    if (cost <? 4) || (31 <? cost) || negb (forallb in_alphabet salt22)
    then Raise (ValueError "Invalid salt")
    else
      let digest := take 31 (b64_encode (eks_blowfish cost salt22 password)) in
      Ok ([36] ++ ver ++ [36] ++ two_digits cost ++ [36] ++ salt22 ++ digest)
  end.

Definition checkpw (password hashed_password : bytes) : result bool :=
  let? h := hashpw password hashed_password in
  Ok (bool_decide (h = hashed_password)).

Definition default_rounds : Z := 12.
Definition default_prefix : bytes := bytes_of_string "2b".

Definition salt_header (rounds : Z) (prefix : bytes) : bytes :=
  [36] ++ prefix ++ [36] ++ two_digits rounds ++ [36].

Definition gensalt_with (rounds : Z) (prefix : bytes) : M bytes :=
  if (rounds <? 4) || (31 <? rounds) then raise (ValueError "Invalid rounds")
  else
    let! seed := os_urandom 16 in
    ret (salt_header rounds prefix ++ b64_encode seed).

(** [bcrypt.gensalt()] with its default arguments. *)
Definition gensalt : M bytes := gensalt_with default_rounds default_prefix.

(** The seven characters [$2b$12$] every salt of [gensalt()] starts with,
    and the hash of a password under the salt made from a given seed. *)
Definition default_header : bytes := salt_header default_rounds default_prefix.

Definition hash_with (seed password : bytes) : bytes :=
  default_header ++ b64_encode seed
    ++ take 31 (b64_encode
                  (eks_blowfish default_rounds (b64_encode seed) password)).

(** The cost a hash string carries. *)
Definition cost_of (hashed : bytes) : option Z :=
  match parse_salt hashed with
  | Some (_, c, _) => Some c
  | None => None
  end.
End bcrypt.
End bcrypt.

(** ** [app/core/config.py] *)

Record Settings := mkSettings {
  SECRET_KEY : string;
  JWT_ALGORITHM : string;
  ACCESS_TOKEN_EXPIRE_MINUTES : Z;
  REFRESH_TOKEN_EXPIRE_DAYS : Z;
  BCRYPT_ROUNDS : Z
}.

(** The defaults of the class body; [SECRET_KEY] has none. *)
Definition default_settings (secret : string) : Settings :=
  mkSettings secret "HS256" 30 7 12.

(** ** [app/core/security.py]: passwords *)

Section security_passwords.
Context `{Primitives}.

Definition verify_password (plain_password hashed_password : text)
  : result bool :=
  let? encoded := str_encode plain_password in
  let password_bytes := take 72 encoded in
  let? hashed_bytes := str_encode hashed_password in
  bcrypt.checkpw password_bytes hashed_bytes.

Definition get_password_hash (password : text) : M text :=
  let! encoded := lift (str_encode password) in
  let password_bytes := take 72 encoded in
  let! salt := bcrypt.gensalt in
  let! hashed := lift (bcrypt.hashpw password_bytes salt) in
  lift (bytes_decode hashed).
End security_passwords.

(** ** The [jose.jwt] package *)

(** Modelled from the spec: [encode] "signs with the server's symmetric
    secret using a fixed MAC algorithm ... returns the compact signed
    representation"; [decode] "verifies signature and expiry; fails ... if the
    signature does not verify, the token is malformed, or now > exp".  A token
    is either a compact serialisation, given by its three parts, or a string
    that is none.  The package also validates the registered claims [aud],
    [nbf], [jti], [at_hash] and the type of [sub] of a token that carries
    them; the tokens this server issues for a user carry a string [sub] and
    none of the others, and it is for such tokens that [decode] stands for
    the package. *)
Module jwt.
Record jws := mkJws {
  alg : string;
  payload : gmap string pyval;
  signature : bytes
}.

Inductive token :=
| Compact (j : jws)
| Garbled (raw : string).

Global Instance jws_eq_dec : EqDecision jws.
Proof. solve_decision. Defined.
Global Instance token_eq_dec : EqDecision token.
Proof. solve_decision. Defined.

Section jwt.
Context `{Primitives}.

Definition encode (claims : gmap string pyval) (key algorithm : string)
  : token :=
  Compact (mkJws algorithm claims (hmac_sign algorithm key claims)).

Definition signature_valid (j : jws) (key : string)
    (algorithms : list string) : bool :=
  bool_decide (alg j ∈ algorithms)
  && bool_decide (signature j = hmac_sign (alg j) key (payload j)).

Definition decode (tok : token) (key : string) (algorithms : list string)
  : M (gmap string pyval) :=
  match tok with
  | Garbled _ => raise (JWTError "Not enough segments")
  | Compact j =>
    if negb (signature_valid j key algorithms)
    then raise (JWTError "Signature verification failed.")
    else
      match payload j !! "exp" with
      | None => ret (payload j)
      | Some (PInt exp) =>
        let! now := utcnow in
        if exp <? now then raise (JWTError "Signature has expired.")
        else ret (payload j)
      | Some _ =>
        raise (JWTError "Expiration Time claim (exp) must be an integer.")
      end
  end.

(** The branches of [decode]: it raises before it reads the clock
    ([malformed], [bad_signature]) or after ([expired]). *)
Definition malformed (tok : token) : bool :=
  match tok with
  | Garbled _ => true
  | Compact j =>
    match payload j !! "exp" with
    | None | Some (PInt _) => false
    | Some _ => true
    end
  end.

Definition bad_signature (tok : token) (key : string)
    (algorithms : list string) : bool :=
  match tok with
  | Garbled _ => false
  | Compact j => negb (signature_valid j key algorithms)
  end.

Definition expired (tok : token) (now : Z) : bool :=
  match tok with
  | Garbled _ => false
  | Compact j =>
    match payload j !! "exp" with
    | Some (PInt exp) => exp <? now
    | _ => false
    end
  end.

Definition claims_of (tok : token) : gmap string pyval :=
  match tok with
  | Garbled _ => ∅
  | Compact j => payload j
  end.
End jwt.
End jwt.

(** ** [app/core/security.py]: tokens *)

(** The [Token] response of [app/schemas/token.py], which is also the
    dictionary [create_token_pair] returns. *)
Module Token.
Record t := mk {
  access_token : jwt.token;
  refresh_token : jwt.token;
  token_type : string
}.
End Token.

Definition bearer_header : list (string * string) :=
  [("WWW-Authenticate", "Bearer")]%string.

Section security_tokens.
Context `{Primitives}.
Variable settings : Settings.

(** [expires_delta] is a [timedelta] in whole seconds; like [None], a zero
    [timedelta] is falsy. *)
Definition create_access_token (data : gmap string pyval)
    (expires_delta : option Z) : M jwt.token :=
  let to_encode := data in
  let! expire :=
    match expires_delta with
    | Some d =>
      if d =? 0
      then (let! now := utcnow in
            ret (now + 60 * ACCESS_TOKEN_EXPIRE_MINUTES settings))
      else (let! now := utcnow in ret (now + d))
    | None =>
      let! now := utcnow in
      ret (now + 60 * ACCESS_TOKEN_EXPIRE_MINUTES settings)
    end in
  let! iat := utcnow in
  let to_encode :=
    <["type" := PStr "access"]>
      (<["iat" := PInt iat]> (<["exp" := PInt expire]> to_encode)) in
  ret (jwt.encode to_encode (SECRET_KEY settings) (JWT_ALGORITHM settings)).

Definition create_refresh_token (data : gmap string pyval)
    (expires_delta : option Z) : M jwt.token :=
  let to_encode := data in
  let! expire :=
    match expires_delta with
    | Some d =>
      if d =? 0
      then (let! now := utcnow in
            ret (now + 86400 * REFRESH_TOKEN_EXPIRE_DAYS settings))
      else (let! now := utcnow in ret (now + d))
    | None =>
      let! now := utcnow in
      ret (now + 86400 * REFRESH_TOKEN_EXPIRE_DAYS settings)
    end in
  let! iat := utcnow in
  let to_encode :=
    <["type" := PStr "refresh"]>
      (<["iat" := PInt iat]> (<["exp" := PInt expire]> to_encode)) in
  ret (jwt.encode to_encode (SECRET_KEY settings) (JWT_ALGORITHM settings)).

Definition credentials_exception : HTTPException :=
  mkHTTPException 401 "Could not validate credentials" bearer_header.

Definition decode_token (token : jwt.token) : M (gmap string pyval) :=
  try_except
    (jwt.decode token (SECRET_KEY settings) [JWT_ALGORITHM settings])
    (λ e, match e with
          | JWTError _ => raise (HTTPError credentials_exception)
          | _ => raise e
          end).

Definition token_type_exception (expected_type : string) (token_type : pyval)
  : HTTPException :=
  mkHTTPException 401
    ("Invalid token type. Expected " +:+ expected_type +:+ ", got "
       +:+ py_str token_type)
    bearer_header.

Definition verify_token_type (payload : gmap string pyval)
    (expected_type : string) : result unit :=
  let token_type := dict_get payload "type" in
  if bool_decide (token_type ≠ PStr expected_type)
  then Raise (HTTPError (token_type_exception expected_type token_type))
  else Ok ().

Definition create_token_pair (user_id email : string) : M Token.t :=
  let! access := 
    create_access_token
      (<["email" := PStr email]> {["sub" := PStr user_id]}) None in
  let! refresh :=
    create_refresh_token {["sub" := PStr user_id]} None in
  ret (Token.mk access refresh "bearer").
(** The token pair issued at [w] for a user. *)
Definition pair_at (user_id email : string) (w : world) : Token.t :=
  Token.mk
    (jwt.encode
       (<["type" := PStr "access"]>
          (<["iat" := PInt (now (tick w))]>
             (<["exp" := PInt (now w
                   + 60 * ACCESS_TOKEN_EXPIRE_MINUTES settings)]>
                (<["email" := PStr email]> {["sub" := PStr user_id]}))))
       (SECRET_KEY settings) (JWT_ALGORITHM settings))
    (jwt.encode
       (<["type" := PStr "refresh"]>
          (<["iat" := PInt (now (tick (tick (tick w))))]>
             (<["exp" := PInt (now (tick (tick w))
                   + 86400 * REFRESH_TOKEN_EXPIRE_DAYS settings)]>
                {["sub" := PStr user_id]})))
       (SECRET_KEY settings) (JWT_ALGORITHM settings))
    "bearer".

End security_tokens.

(** ** [app/schemas/user.py] *)

Module UserCreate.
Record t := mk {
  email : string;
  full_name : option string;
  password : text
}.
End UserCreate.

Module UserResponse.
Record t := mk {
  email : string;
  full_name : option string;
  id : UUID;
  is_active : bool;
  is_verified : bool;
  created_at : Z;
  updated_at : Z;
  last_login : option Z
}.

(** [UserResponse.model_validate(user)] with [from_attributes]: the fields of
    the response are read off the row, and the row has more. *)
Definition from_user (u : User.t) : t :=
  mk (User.email u) (User.full_name u) (User.id u) (User.is_active u)
     (User.is_verified u) (User.created_at u) (User.updated_at u)
     (User.last_login u).
End UserResponse.

Section schemas.
Context `{Primitives}.

(** The [field_validator] of [UserCreate.password]. *)
Definition validate_password (v : text) : result text :=
  if (length v <? 8)%nat
  then Raise (ValueError "Password must be at least 8 characters long")
  else if negb (existsb char_isupper v)
  then Raise (ValueError "Password must contain at least one uppercase letter")
  else if negb (existsb char_islower v)
  then Raise (ValueError "Password must contain at least one lowercase letter")
  else if negb (existsb char_isdigit v)
  then Raise (ValueError "Password must contain at least one digit")
  else Ok v.

(** [password: str = Field(..., min_length=8, max_length=100)], then the
    validator above. *)
Definition password_field (v : text) : result text :=
  if (length v <? 8)%nat
  then Raise (ValueError "String should have at least 8 characters")
  else if (100 <? length v)%nat
  then Raise (ValueError "String should have at most 100 characters")
  else validate_password v.

(** What the two layers of [password_field] ask of a password. *)
Definition password_ok (v : text) : bool :=
  (8 <=? length v)%nat && (length v <=? 100)%nat
  && existsb char_isupper v && existsb char_islower v
  && existsb char_isdigit v.

Definition email_field (v : string) : result string :=
  of_option (validate_email v)
    (ValueError "value is not a valid email address").

Definition error_of {A} (r : result A) : list string :=
  match r with
  | Raise (ValueError msg) => [msg]
  | _ => []
  end.

(** Construction of a [UserCreate] from a request body: every field is
    validated, and the errors of all of them are reported together. *)
Definition UserCreate_validate (email : string) (full_name : option string)
    (password : text) : result UserCreate.t :=
  match email_field email, password_field password with
  | Ok e, Ok p => Ok (UserCreate.mk e full_name p)
  | re, rp => Raise (RequestValidationError (error_of re ++ error_of rp))
  end.
End schemas.

(** ** Storage access *)

(** The filter [User.email == email]. *)
Definition has_email (email : string) (u : User.t) : bool :=
  bool_decide (User.email u = email).

(** [db.query(User).filter(cond).first()] *)
Definition query_first (cond : User.t → bool) : M (option User.t) :=
  λ w, (Ok (find cond (users w)), w).

Fixpoint update_first (cond : User.t → bool) (f : User.t → User.t)
    (us : list User.t) : list User.t :=
  match us with
  | [] => []
  | u :: rest =>
    if cond u then f u :: rest else u :: update_first cond f rest
  end.

(** Assignment to an attribute of the row [query_first cond] returned,
    followed by [db.commit()]. *)
Definition db_update (cond : User.t → bool) (f : User.t → User.t) : M unit :=
  λ w, (Ok (), set_users (update_first cond f (users w)) w).

(** Modelled from the spec: [db.add(user); db.commit(); db.refresh(user)] for
    a new [User]; as for the sibling models, the storage layer fills in the
    identifier and the two timestamps, and [last_login] starts empty. *)
Definition db_insert (email : string) (full_name : option string)
    (hashed_password : text) (is_active is_verified : bool) : M User.t :=
  let! created := utcnow in
  let! updated := utcnow in
  λ w,
    let user := User.mk (row_ids w (rows_added w)) email full_name
                  hashed_password is_active is_verified created updated None in
    (Ok user,
     mkWorld (users w ++ [user]) (utc_clock w) (clock_reads w) (entropy w)
             (entropy_used w) (row_ids w) (S (rows_added w))).

(** ** [app/api/deps.py] *)

(** [uuid.UUID(v)] for the first positional argument [hex]. *)
Definition UUID_of `{Primitives} (v : pyval) : result UUID :=
  match v with
  | PNone =>
    Raise (TypeError
      "one of the hex, bytes, bytes_le, fields, or int arguments must be given")
  | PStr s =>
    of_option (uuid_parse s) (ValueError "badly formed hexadecimal UUID string")
  | PInt _ => Raise (AttributeError "'int' object has no attribute 'replace'")
  | PBool _ => Raise (AttributeError "'bool' object has no attribute 'replace'")
  end.

Definition could_not_validate : HTTPException :=
  mkHTTPException 401 "Could not validate credentials" [].

Definition user_not_found : HTTPException :=
  mkHTTPException 404 "User not found" [].

Definition inactive_user : HTTPException :=
  mkHTTPException 403 "Inactive user" [].

Section deps.
Context `{Primitives}.
Variable settings : Settings.

Definition get_current_user (token : jwt.token) : M User.t :=
  let! user_id :=
    try_except
      (let! payload := decode_token settings token in
       let! _ := lift (verify_token_type payload "access") in
       lift (UUID_of (dict_get payload "sub")))
      (λ e, match e with
            | JWTError _ | ValueError _ =>
              raise (HTTPError could_not_validate)
            | _ => raise e
            end) in
  let! user := query_first (λ u, bool_decide (User.id u = user_id)) in
  match user with
  | None => raise (HTTPError user_not_found)
  | Some user =>
    if negb (User.is_active user)
    then raise (HTTPError inactive_user)
    else ret user
  end.
End deps.

(** ** [app/api/v1/endpoints/auth.py] *)

Module LoginRequest.
Record t := mk {
  email : string;
  password : text
}.
End LoginRequest.

Section auth.
Context `{Primitives}.
Variable settings : Settings.

Definition email_taken : HTTPException :=
  mkHTTPException 400 "Email already registered" [].

Definition register (user_in : UserCreate.t) : M User.t :=
  let! existing_user := query_first (has_email (UserCreate.email user_in)) in
  match existing_user with
  | Some _ => raise (HTTPError email_taken)
  | None =>
    let! hashed := get_password_hash (UserCreate.password user_in) in
    db_insert (UserCreate.email user_in) (UserCreate.full_name user_in) hashed true false
  end.

(** The route [POST /register]: the body is validated into a [UserCreate]
    before [register] runs, and its result is serialised through
    [response_model=UserResponse]. *)
Definition post_register (email : string) (full_name : option string)
    (password : text) : M UserResponse.t :=
  let! user_in := lift (UserCreate_validate email full_name password) in
  let! user := register user_in in
  ret (UserResponse.from_user user).

Definition invalid_credentials : HTTPException :=
  mkHTTPException 401 "Incorrect email or password" bearer_header.

Definition login (login_data : LoginRequest.t) : M Token.t :=
  let by_email := has_email (LoginRequest.email login_data) in
  let! user := query_first by_email in
  match user with
  | None => raise (HTTPError invalid_credentials)
  | Some user =>
    let! verified :=
      lift (verify_password (LoginRequest.password login_data)
              (User.hashed_password user)) in
    if negb verified then raise (HTTPError invalid_credentials)
    else if negb (User.is_active user) then raise (HTTPError inactive_user)
    else
      let! now := utcnow in
      let! _ := db_update by_email (User.set_last_login (Some now)) in
      create_token_pair settings (uuid_str (User.id user)) (User.email user)
  end.

Definition invalid_refresh_token : HTTPException :=
  mkHTTPException 401 "Invalid refresh token" bearer_header.

Definition not_found_or_inactive : HTTPException :=
  mkHTTPException 401 "User not found or inactive" [].

Definition refresh_token (refresh_data : jwt.token) : M Token.t :=
  let! user_id :=
    try_except
      (let! payload := decode_token settings refresh_data in
       let! _ := lift (verify_token_type payload "refresh") in
       ret (dict_get payload "sub"))
      (λ _, raise (HTTPError invalid_refresh_token)) in
  let! user := query_first (λ u, id_column_eq (User.id u) user_id) in
  match user with
  | None => raise (HTTPError not_found_or_inactive)
  | Some user =>
    if negb (User.is_active user)
    then raise (HTTPError not_found_or_inactive)
    else
      create_token_pair settings (uuid_str (User.id user)) (User.email user)
  end.
End auth.

(** * The rest of the backend around the authentication core

    The remaining functions of [security.py], [deps.py], [auth.py] and
    [config.py], and the routes of [notifications.py], [projects.py],
    [feedback.py] and [revisions.py] that create and read rows or mark them
    read.  A route takes the row [get_current_user] resolved and the table it
    works on, and returns the table it leaves.  [str.isspace] and
    [str.lower], which the settings use, are variables of their sections.
    The routes that list rows without an order, and those that update or
    delete through the ORM, are not embedded: what they return or write is
    decided by the database and by the mapper's change tracking and
    cascades. *)

(** ** [app/core/security.py]: password strength and API keys *)

Definition special_chars : text :=
  bytes_of_string "!@#$%^&*()_+-=[]{}|;:,.<>?".

(** [base64.urlsafe_b64encode], and [secrets.token_urlsafe], which draws
    [nbytes] bytes, encodes them and drops the padding. *)
Module base64.
Definition urlsafe_alphabet : bytes :=
  bytes_of_string
    "ABCDEFGHIJKLMNOPQRSTUVWXYZabcdefghijklmnopqrstuvwxyz0123456789-_".

Definition urlsafe_char (n : Z) : Z := nth (Z.to_nat n) urlsafe_alphabet 65.

Fixpoint urlsafe_b64encode (l : bytes) : bytes :=
  match l with
  | [] => []
  | [b0] =>
    [urlsafe_char (Z.shiftr b0 2); urlsafe_char (Z.shiftl (Z.land b0 3) 4);
     61; 61]
  | [b0; b1] =>
    [urlsafe_char (Z.shiftr b0 2);
     urlsafe_char (Z.lor (Z.shiftl (Z.land b0 3) 4) (Z.shiftr b1 4));
     urlsafe_char (Z.shiftl (Z.land b1 15) 2);
     61]
  | b0 :: b1 :: b2 :: rest =>
    [urlsafe_char (Z.shiftr b0 2);
     urlsafe_char (Z.lor (Z.shiftl (Z.land b0 3) 4) (Z.shiftr b1 4));
     urlsafe_char (Z.lor (Z.shiftl (Z.land b1 15) 2) (Z.shiftr b2 6));
     urlsafe_char (Z.land b2 63)] ++ urlsafe_b64encode rest
  end.
End base64.

(** [bs.rstrip(b'=')] *)
Fixpoint rstrip_pad (bs : bytes) : bytes :=
  match bs with
  | [] => []
  | b :: rest =>
    match rstrip_pad rest with
    | [] => if b =? 61 then [] else [b]
    | rest' => b :: rest'
    end
  end.

(** [bs.decode('ascii')] *)
Definition decode_ascii (bs : bytes) : result text :=
  if forallb (λ b, (0 <=? b) && (b <? 128)) bs then Ok bs
  else Raise UnicodeDecodeError.

Definition token_urlsafe (nbytes : nat) : M text :=
  let! tok := os_urandom nbytes in
  lift (decode_ascii (rstrip_pad (base64.urlsafe_b64encode tok))).

(** [char in special_chars] *)
Definition is_special (char : Z) : bool := existsb (Z.eqb char) special_chars.

Section security_more.
Context `{Primitives}.

Definition validate_password_strength (password : text)
  : bool * option string :=
  if (length password <? 8)%nat
  then (false, Some "Password must be at least 8 characters long"%string)
  else if negb (existsb char_isupper password)
  then (false,
        Some "Password must contain at least one uppercase letter"%string)
  else if negb (existsb char_islower password)
  then (false,
        Some "Password must contain at least one lowercase letter"%string)
  else if negb (existsb char_isdigit password)
  then (false, Some "Password must contain at least one digit"%string)
  else if negb (existsb is_special password)
  then (false,
        Some "Password must contain at least one special character"%string)
  else (true, None).

Definition generate_api_key : M text := token_urlsafe 32.

Definition hash_api_key (api_key : text) : M text := get_password_hash api_key.

Definition verify_api_key (plain_key hashed_key : text) : result bool :=
  verify_password plain_key hashed_key.
End security_more.

(** The lifetime, in seconds, [create_access_token] and
    [create_refresh_token] give a token: [expires_delta] when it is given and
    not zero, the configured lifetime otherwise. *)
Definition token_lifetime (configured : Z) (expires_delta : option Z) : Z :=
  match expires_delta with
  | Some d => if d =? 0 then configured else d
  | None => configured
  end.

(** The claims of a token of a given type issued at [w] with a given
    lifetime: those of [data], under the three the server sets. *)
Definition issued_claims (type : string) (lifetime : Z)
    (data : gmap string pyval) (w : world) : gmap string pyval :=
  <["type" := PStr type]>
    (<["iat" := PInt (now (tick w))]>
       (<["exp" := PInt (now w + lifetime)]> data)).

(** Claims the package validates nothing of beyond [exp] and [iat]: no
    [aud], [nbf], [jti] or [at_hash], and a [sub], if there is one, that is a
    string. *)
Definition plain_claims (data : gmap string pyval) : Prop :=
  data !! "aud" = None
  ∧ data !! "nbf" = None
  ∧ data !! "jti" = None
  ∧ data !! "at_hash" = None
  ∧ (data !! "sub" = None ∨ ∃ sub, data !! "sub" = Some (PStr sub)).

(** ** [app/api/deps.py] and [auth.py]: the remaining routes *)

Section deps_more.
Context `{Primitives}.
Variable settings : Settings.

(** [current_user: User = Depends(get_current_user)] runs
    [get_current_user] on the request's token first. *)
Definition get_current_active_user (token : jwt.token) : M User.t :=
  let! current_user := get_current_user settings token in
  if negb (User.is_active current_user)
  then raise (HTTPError inactive_user)
  else ret current_user.

(** [GET /auth/me] and [GET /users/me], through
    [response_model=UserResponse]. *)
Definition get_current_user_info (token : jwt.token) : M UserResponse.t :=
  let! current_user := get_current_user settings token in
  ret (UserResponse.from_user current_user).

Definition logout (token : jwt.token) : M (gmap string pyval) :=
  let! current_user := get_current_user settings token in
  ret {["message" := PStr "Successfully logged out"]}.
End deps_more.

(** The row with a given primary key. *)
Definition has_id (id : UUID) (u : User.t) : bool :=
  bool_decide (User.id u = id).

(** The columns of a row that identify and authenticate its user. *)
Definition credentials (u : User.t) : UUID * string * text * bool :=
  (User.id u, User.email u, User.hashed_password u, User.is_active u).

(** ** [app/core/config.py]: the list settings and the start-up check *)

(** What a [mode="before"] validator of a list setting is given: nothing,
    the text of an environment variable, or a list. *)
Inductive raw_setting :=
| RawNone
| RawStr (s : text)
| RawList (l : list text).

(** [s.split(sep)] and [sep.join(items)] for a separator of one character. *)
Definition str_split (sep : Z) (s : text) : list text := bcrypt.split_on sep s.

Fixpoint str_join (sep : Z) (items : list text) : text :=
  match items with
  | [] => []
  | [x] => x
  | x :: rest => x ++ sep :: str_join sep rest
  end.

Definition wildcard : list text := [bytes_of_string "*"].

Definition default_origins : list text :=
  map bytes_of_string ["http://localhost:3000"; "http://localhost:5173"]%string.

Definition default_extensions : list text :=
  map bytes_of_string [".pdf"; ".png"; ".jpg"; ".jpeg"; ".gif"; ".svg"]%string.

Section config_lists.
(** [str.isspace] on one character, which decides what [str.strip] removes. *)
Variable char_isspace : Z → bool.

Fixpoint str_lstrip (s : text) : text :=
  match s with
  | [] => []
  | c :: rest => if char_isspace c then str_lstrip rest else s
  end.

Fixpoint str_rstrip (s : text) : text :=
  match s with
  | [] => []
  | c :: rest =>
    match str_rstrip rest with
    | [] => if char_isspace c then [] else [c]
    | rest' => c :: rest'
    end
  end.

Definition str_strip (s : text) : text := str_rstrip (str_lstrip s).

(** An item as the list validators produce them: not empty, without a comma,
    and with no white space at either end. *)
Definition clean_item (x : text) : Prop :=
  x ≠ [] ∧ (44 ∉ x) ∧ str_strip x = x.

(** [[x.strip() for x in v.split(",") if x.strip()]] *)
Definition comma_separated (v : text) : list text :=
  str_strip
    <$> List.filter (λ x, bcrypt.nonempty (str_strip x)) (str_split 44 v).

Definition parse_allowed_hosts (v : raw_setting) : list text :=
  match v with
  | RawNone | RawStr [] => wildcard
  | RawStr v => comma_separated v
  | RawList [] => wildcard
  | RawList v => v
  end.

Definition parse_cors_methods (v : raw_setting) : list text :=
  match v with
  | RawNone | RawStr [] => wildcard
  | RawStr v => comma_separated v
  | RawList [] => wildcard
  | RawList v => v
  end.

Definition parse_cors_headers (v : raw_setting) : list text :=
  match v with
  | RawNone | RawStr [] => wildcard
  | RawStr v => comma_separated v
  | RawList [] => wildcard
  | RawList v => v
  end.

Definition parse_cors_origins (v : raw_setting) : list text :=
  match v with
  | RawStr v =>
    if negb (bcrypt.nonempty v) || bool_decide (str_strip v = [])
    then default_origins
    else comma_separated v
  | RawList (_ :: _ as v) => v
  | RawList [] | RawNone => default_origins
  end.

Definition parse_file_extensions (v : raw_setting) : list text :=
  match v with
  | RawStr v =>
    if negb (bcrypt.nonempty v) || bool_decide (str_strip v = [])
    then default_extensions
    else comma_separated v
  | RawList (_ :: _ as v) => v
  | RawList [] | RawNone => default_extensions
  end.
End config_lists.

(** The settings [validate_settings] reads, beside the security block. *)
Module config.
Record t := mk {
  security : Settings;
  ENVIRONMENT : string;
  DEBUG : bool;
  DATABASE_URL : string;
  BLACKBOX_API_KEY : string;
  EMAIL_ENABLED : bool;
  SENDGRID_API_KEY : option string;
  SLACK_ENABLED : bool;
  SLACK_CLIENT_ID : option string;
  SLACK_CLIENT_SECRET : option string;
  SLACK_SIGNING_SECRET : option string;
  ALLOWED_ORIGINS : list text;
  SENTRY_DSN : option string
}.
End config.

(** Truth of a [str] and of an [Optional[str]]. *)
Definition str_truthy (s : string) : bool :=
  match s with
  | EmptyString => false
  | String _ _ => true
  end.

Definition opt_truthy (v : option string) : bool :=
  match v with
  | Some s => str_truthy s
  | None => false
  end.

Definition newline : string := String (Ascii.ascii_of_nat 10) EmptyString.

Fixpoint join_lines (lines : list string) : string :=
  match lines with
  | [] => EmptyString
  | [l] => l
  | l :: rest => l +:+ newline +:+ join_lines rest
  end.

Section config_checks.
(** [str.lower] *)
Variable str_lower : string → string.

Definition is_production (s : config.t) : bool :=
  bool_decide (str_lower (config.ENVIRONMENT s) = "production"%string).

(** The list [errors] of [validate_settings] when it reaches [if errors:]. *)
Definition validation_errors (s : config.t) : list string :=
  let errors := [] in
  let errors :=
    if negb (str_truthy (SECRET_KEY (config.security s)))
       || (String.length (SECRET_KEY (config.security s)) <? 32)%nat
    then errors ++ ["SECRET_KEY must be at least 32 characters long"%string]
    else errors in
  let errors :=
    if negb (str_truthy (config.DATABASE_URL s))
    then errors ++ ["DATABASE_URL is required"%string]
    else errors in
  let errors :=
    if negb (str_truthy (config.BLACKBOX_API_KEY s))
    then errors ++ ["BLACKBOX_API_KEY is required for AI features"%string]
    else errors in
  let errors :=
    if config.EMAIL_ENABLED s && negb (opt_truthy (config.SENDGRID_API_KEY s))
    then errors
         ++ ["SENDGRID_API_KEY is required when EMAIL_ENABLED is True"%string]
    else errors in
  let errors :=
    if config.SLACK_ENABLED s
       && negb (forallb opt_truthy
                  [config.SLACK_CLIENT_ID s; config.SLACK_CLIENT_SECRET s;
                   config.SLACK_SIGNING_SECRET s])
    then errors
         ++ ["Slack credentials are required when SLACK_ENABLED is True"%string]
    else errors in
  if is_production s then
    let errors :=
      if config.DEBUG s
      then errors ++ ["DEBUG must be False in production"%string]
      else errors in
    let errors :=
      if bool_decide (bytes_of_string "localhost" ∈ config.ALLOWED_ORIGINS s)
      then errors
           ++ ["localhost should not be in ALLOWED_ORIGINS in production"%string]
      else errors in
    let errors :=
      if negb (opt_truthy (config.SENTRY_DSN s))
      then errors
           ++ ["SENTRY_DSN is recommended for production error tracking"%string]
      else errors in
    errors
  else errors.

Definition validate_settings (s : config.t) : result unit :=
  match validation_errors s with
  | [] => Ok ()
  | errors =>
    Raise (ValueError
      ("Configuration validation failed:" +:+ newline
         +:+ join_lines ((λ error, "  - " +:+ error) <$> errors)))
  end.
End config_checks.

(** ** Rows of the other tables

    The routes below take the row [get_current_user] resolved as
    [current_user] and the table they work on, and return the table they
    leave; the clock and the identifiers of new rows come from the world. *)

(** A [default=uuid.uuid4] primary key. *)
Definition new_row_id : M UUID :=
  λ w, (Ok (row_ids w (rows_added w)),
        mkWorld (users w) (utc_clock w) (clock_reads w) (entropy w)
                (entropy_used w) (row_ids w) (S (rows_added w))).

(** Assignment to attributes of the row [.first()] returned, committed. *)
Fixpoint update_row {A} (cond : A → bool) (f : A → A) (rows : list A)
    : list A :=
  match rows with
  | [] => []
  | r :: rest => if cond r then f r :: rest else r :: update_row cond f rest
  end.

(** [query.filter(cond).update(values)] *)
Definition update_rows {A} (cond : A → bool) (f : A → A) (rows : list A)
    : list A :=
  (λ r, if cond r then f r else r) <$> rows.

(** ** [app/models/notification.py], [app/api/v1/endpoints/notifications.py] *)

Module Notification.
Record t := mk {
  id : UUID;
  user_id : UUID;
  type : string;
  title : string;
  message : option string;
  is_read : bool;
  meta_data : option (gmap string pyval);
  created_at : Z;
  read_at : option Z
}.

(** [is_read = True; read_at = now] *)
Definition set_read (now : Z) (n : t) : t :=
  mk (id n) (user_id n) (type n) (title n) (message n) true (meta_data n)
     (created_at n) (Some now).
End Notification.

Definition notification_not_found : HTTPException :=
  mkHTTPException 404 "Notification not found" [].

(** The filter [Notification.id == notification_id,
    Notification.user_id == current_user.id]. *)
Definition notification_of (notification_id : UUID) (current_user : User.t)
    (n : Notification.t) : bool :=
  bool_decide (Notification.id n = notification_id)
  && bool_decide (Notification.user_id n = User.id current_user).

(** The filter [Notification.user_id == current_user.id,
    Notification.is_read == False]. *)
Definition unread_of (current_user : User.t) (n : Notification.t) : bool :=
  bool_decide (Notification.user_id n = User.id current_user)
  && bool_decide (Notification.is_read n = false).

Definition mark_notification_read (notification_id : UUID)
    (current_user : User.t) (notifications : list Notification.t)
  : M (Notification.t * list Notification.t) :=
  let mine := notification_of notification_id current_user in
  match find mine notifications with
  | None => raise (HTTPError notification_not_found)
  | Some notification =>
    if negb (Notification.is_read notification) then
      let! now := utcnow in
      let notification := Notification.set_read now notification in
      ret (notification, update_row mine (λ _, notification) notifications)
    else ret (notification, notifications)
  end.

Definition mark_all_notifications_read (current_user : User.t)
    (notifications : list Notification.t)
  : M (gmap string pyval * list Notification.t) :=
  let! now := utcnow in
  ret ({["message" := PStr "All notifications marked as read"]},
       update_rows (unread_of current_user) (Notification.set_read now)
         notifications).

Definition get_unread_count (current_user : User.t)
    (notifications : list Notification.t) : gmap string pyval :=
  let count := length (List.filter (unread_of current_user) notifications) in
  {["unread_count" := PInt (Z.of_nat count)]}.

(** ** [app/models/project.py], [app/api/v1/endpoints/projects.py] *)

Module Project.
Record t := mk {
  id : UUID;
  user_id : UUID;
  name : string;
  description : option string;
  status : string;
  created_at : Z;
  updated_at : Z
}.
End Project.

Module ProjectCreate.
Record t := mk {
  name : string;
  description : option string;
  status : string
}.
End ProjectCreate.

Definition project_not_found : HTTPException :=
  mkHTTPException 404 "Project not found" [].

(** The filter [Project.id == project_id,
    Project.user_id == current_user.id]. *)
Definition project_of (project_id : UUID) (current_user : User.t)
    (p : Project.t) : bool :=
  bool_decide (Project.id p = project_id)
  && bool_decide (Project.user_id p = User.id current_user).

(** [db.add(project); db.commit(); db.refresh(project)]: the defaults of the
    columns not given are filled in, and the row is appended. *)
Definition create_project (project_in : ProjectCreate.t)
    (current_user : User.t) (projects : list Project.t)
  : M (Project.t * list Project.t) :=
  let! id := new_row_id in
  let! created_at := utcnow in
  let! updated_at := utcnow in
  let project :=
    Project.mk id (User.id current_user) (ProjectCreate.name project_in)
      (ProjectCreate.description project_in)
      (ProjectCreate.status project_in) created_at updated_at in
  ret (project, projects ++ [project]).

Definition get_project (project_id : UUID) (current_user : User.t)
    (projects : list Project.t) : result Project.t :=
  match find (project_of project_id current_user) projects with
  | None => Raise (HTTPError project_not_found)
  | Some project => Ok project
  end.

(** ** [app/models/feedback.py], [app/models/revision.py],
    [app/api/v1/endpoints/revisions.py] *)

Module Feedback.
Record t := mk {
  id : UUID;
  user_id : UUID;
  project_id : UUID;
  raw_text : string;
  summary : option (gmap string pyval);
  sentiment : option string;
  priority : option string;
  status : string;
  created_at : Z;
  updated_at : Z
}.
End Feedback.

Module Revision.
Record t := mk {
  id : UUID;
  feedback_id : UUID;
  version : Z;
  file_url : option string;
  file_name : option string;
  file_size : option Z;
  file_type : option string;
  status : string;
  notes : option string;
  created_at : Z;
  updated_at : Z;
  approved_at : option Z
}.
End Revision.

Module FeedbackCreate.
Record t := mk {
  raw_text : string;
  project_id : UUID
}.
End FeedbackCreate.

(** What the route reads of an uploaded file. *)
Module UploadFile.
Record t := mk {
  filename : option string;
  content_type : option string
}.
End UploadFile.

Definition feedback_not_found : HTTPException :=
  mkHTTPException 404 "Feedback not found" [].

(** The filter [Feedback.id == feedback_id,
    Feedback.user_id == current_user.id]. *)
Definition feedback_of (feedback_id : UUID) (current_user : User.t)
    (f : Feedback.t) : bool :=
  bool_decide (Feedback.id f = feedback_id)
  && bool_decide (Feedback.user_id f = User.id current_user).

(** [app/api/v1/endpoints/feedback.py]: the feedback is stored for a
    project of the caller, as pending and not yet analysed. *)
Definition create_feedback (feedback_in : FeedbackCreate.t)
    (current_user : User.t) (projects : list Project.t)
    (feedbacks : list Feedback.t) : M (Feedback.t * list Feedback.t) :=
  match find (project_of (FeedbackCreate.project_id feedback_in) current_user)
          projects with
  | None => raise (HTTPError project_not_found)
  | Some project =>
    let! id := new_row_id in
    let! created_at := utcnow in
    let! updated_at := utcnow in
    let feedback :=
      Feedback.mk id (User.id current_user)
        (FeedbackCreate.project_id feedback_in)
        (FeedbackCreate.raw_text feedback_in) None None None "pending"
        created_at updated_at in
    ret (feedback, feedbacks ++ [feedback])
  end.

Definition get_feedback (feedback_id : UUID) (current_user : User.t)
    (feedbacks : list Feedback.t) : result Feedback.t :=
  match find (feedback_of feedback_id current_user) feedbacks with
  | None => Raise (HTTPError feedback_not_found)
  | Some feedback => Ok feedback
  end.

(** The filter [Revision.feedback_id == feedback_id]. *)
Definition revision_of (feedback_id : UUID) (r : Revision.t) : bool :=
  bool_decide (Revision.feedback_id r = feedback_id).

(** [.order_by(Revision.version.desc()).first()]: a row of the greatest
    version, if there is a row; which one among equals is the database's
    choice, and only its version is read. *)
Fixpoint first_by_version_desc (rows : list Revision.t)
    : option Revision.t :=
  match rows with
  | [] => None
  | r :: rest =>
    match first_by_version_desc rest with
    | Some best =>
      if Revision.version r <? Revision.version best then Some best
      else Some r
    | None => Some r
    end
  end.

(** The limits of the column types ([String(255)], [Integer]) are left to
    the database that enforces them. *)
Definition create_revision (feedback_id : UUID) (notes : option string)
    (file : option UploadFile.t) (current_user : User.t)
    (feedbacks : list Feedback.t) (revisions : list Revision.t)
  : M (Revision.t * list Revision.t) :=
  match find (feedback_of feedback_id current_user) feedbacks with
  | None => raise (HTTPError feedback_not_found)
  | Some feedback =>
    let last_revision :=
      first_by_version_desc
        (List.filter (revision_of feedback_id) revisions) in
    let next_version :=
      match last_revision with
      | Some last_revision => Revision.version last_revision + 1
      | None => 1
      end in
    let file_name := file ≫= UploadFile.filename in
    let file_type := file ≫= UploadFile.content_type in
    let! id := new_row_id in
    let! created_at := utcnow in
    let! updated_at := utcnow in
    let revision :=
      Revision.mk id feedback_id next_version None file_name None file_type
        "pending" notes created_at updated_at None in
    ret (revision, revisions ++ [revision])
  end.

(** ** A concrete set of primitives

    ASCII character classes, a MAC and a digest that merely concatenate their
    inputs: enough to run the definitions above on examples. *)

Definition sample_uuid_parse (s : string) : option UUID :=
  if bool_decide (s = "00000000-0000-0000-0000-000000000001"%string) then Some 1
  else if bool_decide (s = "00000000-0000-0000-0000-000000000002"%string) then Some 2
  else None.

Definition sample_uuid_str (u : UUID) : string :=
  if u =? 1 then "00000000-0000-0000-0000-000000000001"
  else if u =? 2 then "00000000-0000-0000-0000-000000000002"
  else "ffffffff-ffff-ffff-ffff-ffffffffffff".

Definition sample_primitives : Primitives := {|
  eks_blowfish := λ cost salt password, cost :: password ++ salt;
  hmac_sign := λ algorithm key claims,
    bytes_of_string algorithm ++ bytes_of_string key
      ++ bytes_of_string (py_str (dict_get claims "sub"))
      ++ bytes_of_string (py_str (dict_get claims "type"))
      ++ bytes_of_string (py_str (dict_get claims "exp"));
  uuid_parse := sample_uuid_parse;
  uuid_str := sample_uuid_str;
  char_isupper := λ c, (65 <=? c) && (c <=? 90);
  char_islower := λ c, (97 <=? c) && (c <=? 122);
  char_isdigit := λ c, (48 <=? c) && (c <=? 57);
  validate_email := λ s, Some s;
  id_column_eq := λ u v, bool_decide (v = PStr (sample_uuid_str u))
|}.

Definition sample_settings : Settings :=
  default_settings "0123456789abcdef0123456789abcdef".

Definition sample_world (us : list User.t) : world :=
  mkWorld us (λ n, 5000 + Z.of_nat n) 0 (λ n, 7 * Z.of_nat n + 3) 0
          (λ n, 2 + Z.of_nat n) 0.

Definition sample_password : text := bytes_of_string "Passw0rd1".

Definition sample_hash : text :=
  @bcrypt.hash_with sample_primitives (next_entropy 16 (sample_world []))
    sample_password.

Definition alice_id : string := "00000000-0000-0000-0000-000000000001".

Definition alice : User.t :=
  User.mk 1 "alice@example.com" None sample_hash true false 1000 1000 None.

Definition alice_inactive : User.t :=
  User.mk 1 "alice@example.com" None sample_hash false false 1000 1000 None.

(** Two passwords of 73 characters that differ in the last one only. *)
Definition long_password (last : Z) : text := repeat 233 36 ++ [last].

(** A token signed with the sample secret. *)
Definition sample_token (claims : gmap string pyval) : jwt.token :=
  @jwt.encode sample_primitives claims (SECRET_KEY sample_settings)
    (JWT_ALGORITHM sample_settings).

Definition anonymous_claims : gmap string pyval :=
  <["type" := PStr "access"]> {["exp" := PInt 9999]}.

Definition access_claims (sub : string) : gmap string pyval :=
  <["sub" := PStr sub]> anonymous_claims.

(** ** Further sample data *)

Definition refresh_claims (sub : string) : gmap string pyval :=
  <["sub" := PStr sub]>
    (<["type" := PStr "refresh"]> {["exp" := PInt 9999]}).

Definition alice_login : LoginRequest.t :=
  LoginRequest.mk "alice@example.com" sample_password.

Definition bob_in : UserCreate.t :=
  UserCreate.mk "bob@example.com" None sample_password.

(** The row [register] makes of [bob_in] in [sample_world [alice]]. *)
Definition bob : User.t :=
  User.mk 2 "bob@example.com" None sample_hash true false 5000 5001 None.

(** White space and lower case of ASCII. *)
Definition ascii_isspace (c : Z) : bool :=
  (c =? 32) || ((9 <=? c) && (c <=? 13)).

Fixpoint ascii_lower (s : string) : string :=
  match s with
  | EmptyString => EmptyString
  | String a rest =>
    let n := Ascii.nat_of_ascii a in
    String (if (65 <=? n)%nat && (n <=? 90)%nat
            then Ascii.ascii_of_nat (n + 32) else a)
           (ascii_lower rest)
  end.

Definition sample_hosts : text :=
  bytes_of_string " example.com, ,api.example.com ".

Definition production_settings : config.t :=
  config.mk sample_settings "Production" false "postgresql://db/app"
    "sk-live" true (Some "SG.key") false None None None default_origins
    (Some "https://sentry.example.com/1").

Definition sample_notifications : list Notification.t :=
  [Notification.mk 30 1 "feedback_received" "New feedback" None false None
     4000 None;
   Notification.mk 31 2 "revision_uploaded" "New revision" None false None
     4100 None;
   Notification.mk 32 1 "approval_requested" "Approval" None true None
     4200 (Some 4300)].

Definition sample_projects : list Project.t :=
  [Project.mk 7 1 "Logo" None "active" 3000 3000].

Definition logo_in : ProjectCreate.t :=
  ProjectCreate.mk "Poster" (Some "A3 poster") "active".

Definition sample_feedbacks : list Feedback.t :=
  [Feedback.mk 10 1 7 "Make the logo bigger" None None None "pending"
     3100 3100].

Definition sample_revisions : list Revision.t :=
  [Revision.mk 20 10 1 None None None None "approved" None 3200 3300
     (Some 3300);
   Revision.mk 21 10 3 None None None None "pending" None 3400 3400 None;
   Revision.mk 22 11 7 None None None None "pending" None 3500 3500 None].

Definition sample_upload : UploadFile.t :=
  UploadFile.mk (Some "logo-v4.png") (Some "image/png").

(** Alice logs in at [sample_world [alice]]: the tokens she receives and the
    world afterwards. *)
Definition alice_world : world := sample_world [alice].

Definition alice_tokens : Token.t :=
  @pair_at sample_primitives sample_settings alice_id "alice@example.com"
    (tick alice_world).

Definition alice_logged_in : world :=
  (@login sample_primitives sample_settings alice_login alice_world).2.

(** The world after Bob registered with Alice stored. *)
Definition bob_registered : world :=
  (@register sample_primitives bob_in alice_world).2.

(** Alice's upload for feedback 10, and the world after it. *)
Definition uploaded_revision : Revision.t :=
  Revision.mk 2 10 4 None (Some "logo-v4.png") None (Some "image/png")
    "pending" (Some "bigger") 5000 5001 None.

Definition after_upload : world :=
  (create_revision 10 (Some "bigger"%string) (Some sample_upload) alice
     sample_feedbacks sample_revisions alice_world).2.

(** Alice's new feedback on project 7, and the world after it. *)
Definition pop_in : FeedbackCreate.t := FeedbackCreate.mk "Make it pop" 7.

Definition pop_feedback : Feedback.t :=
  Feedback.mk 2 1 7 "Make it pop" None None None "pending" 5000 5001.

Definition after_feedback : world :=
  (create_feedback pop_in alice sample_projects sample_feedbacks
     alice_world).2.

(** * Properties *)

(** ** Text encoding *)

Lemma utf8_encode_char_scalar c :
  is_scalar c = true → ∃ bs, utf8_encode_char c = Some bs.
Proof.
  unfold is_scalar, utf8_encode_char. intros Hc.
  apply andb_prop in Hc as [Hc Hs]. apply andb_prop in Hc as [H0 H1].
  apply negb_true_iff in Hs.
  destruct (c <? 0) eqn:E0; [lia|].
  destruct (c <? 128); [eauto|].
  destruct (c <? 2048); [eauto|].
  destruct (c <? 65536).
  - rewrite Hs. eauto.
  - rewrite H1. eauto.
Qed.

Lemma utf8_encode_valid s :
  valid_text s → ∃ bs, utf8_encode s = Some bs.
Proof.
  unfold valid_text. induction s as [|c s IH]; simpl; [eauto|].
  intros Hs. apply andb_prop in Hs as [Hc Hs].
  destruct (utf8_encode_char_scalar c Hc) as [bs ->].
  destruct (IH Hs) as [rest ->]. eauto.
Qed.

Lemma utf8_encode_ascii bs : Forall is_ascii bs → utf8_encode bs = Some bs.
Proof.
  induction 1 as [|c bs Hc _ IH]; simpl; [done|].
  unfold utf8_encode_char. unfold is_ascii in Hc.
  destruct (c <? 0) eqn:E0; [lia|].
  destruct (c <? 128) eqn:E1; [|lia].
  by rewrite IH.
Qed.

Lemma utf8_decode_ascii bs : Forall is_ascii bs → utf8_decode bs = Some bs.
Proof.
  induction 1 as [|c bs Hc _ IH]; simpl; [done|].
  unfold is_ascii in Hc.
  destruct (c <? 0) eqn:E0; [lia|].
  destruct (c <? 128) eqn:E1; [|lia].
  by rewrite IH.
Qed.

(** Decoding undoes encoding.  The bit manipulations are checked on every
    code point, one by one. *)
Lemma decodes_to_sound c bs rest :
  decodes_to c bs = true → utf8_decode (bs ++ rest) = cons c <$> utf8_decode rest.
Proof.
  unfold decodes_to.
  destruct bs as [|b0 [|b1 [|b2 [|b3 [|b4 bs]]]]]; try done;
    rewrite !andb_true_iff; unfold is_continuation;
    rewrite ?andb_true_iff, ?negb_true_iff; intros H; simpl.
  - destruct H as [[H0 H1] <-%Z.eqb_eq].
    apply Z.leb_le in H0. apply Z.ltb_lt in H1.
    destruct (Z.ltb_spec b0 0); [lia|]. destruct (Z.ltb_spec b0 128); [done|lia].
  - destruct H as [[[H0 H1] [H2 H3]] ->%Z.eqb_eq].
    apply Z.leb_le in H0. apply Z.ltb_lt in H1.
    destruct (Z.ltb_spec b0 0); [lia|]. destruct (Z.ltb_spec b0 128); [lia|].
    destruct (Z.ltb_spec b0 194); [lia|]. destruct (Z.ltb_spec b0 224); [|lia].
    unfold is_continuation. by rewrite H2, H3.
  - destruct H as [[[[[[H0 H1] [H2 H3]] [H4 H5]] H6] H7] Heq%Z.eqb_eq].
    apply Z.leb_le in H0. apply Z.ltb_lt in H1.
    destruct (Z.ltb_spec b0 0); [lia|]. destruct (Z.ltb_spec b0 128); [lia|].
    destruct (Z.ltb_spec b0 194); [lia|]. destruct (Z.ltb_spec b0 224); [lia|].
    destruct (Z.ltb_spec b0 240); [|lia].
    unfold is_continuation. rewrite H2, H3, H4, H5, Heq, H6, H7. done.
  - destruct H as [[[[[[[H0 H1] [H2 H3]] [H4 H5]] [H6 H7]] H8] H9] Heq%Z.eqb_eq].
    apply Z.leb_le in H0. apply Z.ltb_lt in H1.
    destruct (Z.ltb_spec b0 0); [lia|]. destruct (Z.ltb_spec b0 128); [lia|].
    destruct (Z.ltb_spec b0 194); [lia|]. destruct (Z.ltb_spec b0 224); [lia|].
    destruct (Z.ltb_spec b0 240); [lia|]. destruct (Z.ltb_spec b0 245); [|lia].
    unfold is_continuation. rewrite H2, H3, H4, H5, H6, H7, Heq, H8, H9. done.
Qed.

Lemma holds_from_acc f c n : holds_from f c n false = false.
Proof. revert c. induction n as [|n IH]; intros c; simpl; [done|apply IH]. Qed.

Lemma holds_from_spec f n c :
  holds_from f c n true = true → ∀ k, (k < n)%nat → f (c + Z.of_nat k) = true.
Proof.
  revert c. induction n as [|n IH]; intros c Hall k Hk; [lia|].
  simpl in Hall. destruct (f c) eqn:Hc; [|by rewrite holds_from_acc in Hall].
  destruct k as [|k].
  - by rewrite Z.add_0_r.
  - replace (c + Z.of_nat (S k)) with ((c + 1) + Z.of_nat k) by lia.
    apply IH; [done|lia].
Qed.

Lemma char_roundtrips_scalars :
  holds_from char_roundtrips 0 (Z.to_nat 0x110000) true = true.
Proof. vm_compute. reflexivity. Qed.

Lemma utf8_encode_char_roundtrip c bs :
  utf8_encode_char c = Some bs → decodes_to c bs = true.
Proof.
  intros Henc.
  assert (0 ≤ c < 0x110000) as Hc.
  { revert Henc. unfold utf8_encode_char.
    repeat (case Z.ltb_spec; intros ?); try done; intros _; lia. }
  pose proof (holds_from_spec _ _ _ char_roundtrips_scalars (Z.to_nat c)) as Hall.
  rewrite Z2Nat.id, Z.add_0_l in Hall by lia.
  unfold char_roundtrips in Hall. rewrite Henc in Hall. apply Hall. lia.
Qed.

(** [s.encode('utf-8').decode('utf-8') == s] for every string that can be
    encoded. *)
Theorem utf8_decode_encode s bs :
  utf8_encode s = Some bs → utf8_decode bs = Some s.
Proof.
  revert bs. induction s as [|c s IH]; intros bs; simpl.
  - by intros [= <-].
  - destruct (utf8_encode_char c) as [b|] eqn:Hc; [|done].
    destruct (utf8_encode s) as [rest|]; [|done].
    intros [= <-].
    rewrite (decodes_to_sound c b rest) by by apply utf8_encode_char_roundtrip.
    by rewrite (IH rest).
Qed.

(** One, two, three and four bytes: "A", "é", "€" and U+1F600. *)
Example utf8_encode_samples :
  utf8_encode [65; 233; 8364; 128512]
  = Some [0x41; 0xC3; 0xA9; 0xE2; 0x82; 0xAC; 0xF0; 0x9F; 0x98; 0x80]
  ∧ utf8_decode [0x41; 0xC3; 0xA9; 0xE2; 0x82; 0xAC; 0xF0; 0x9F; 0x98; 0x80]
    = Some [65; 233; 8364; 128512]
  ∧ utf8_encode [0xD800] = None
  ∧ utf8_decode [0xC3] = None.
Proof. by split_and!. Qed.

(** ** The hash string *)

Section bcrypt_facts.
Context `{Primitives}.

Lemma alphabet_range : Forall (λ c, 46 ≤ c ≤ 122) bcrypt.alphabet.
Proof. unfold bcrypt.alphabet. cbv. repeat constructor; discriminate. Qed.

Lemma in_alphabet_range c : bcrypt.in_alphabet c = true → 46 ≤ c ≤ 122.
Proof.
  unfold bcrypt.in_alphabet. intros Hc.
  apply existsb_exists in Hc as (x & Hx & Heq).
  apply Z.eqb_eq in Heq as ->.
  pose proof alphabet_range as Hr. rewrite List.Forall_forall in Hr.
  by apply Hr.
Qed.

Lemma b64_char_in n : bcrypt.in_alphabet (bcrypt.b64_char n) = true.
Proof.
  unfold bcrypt.in_alphabet, bcrypt.b64_char.
  apply existsb_exists.
  exists (nth (Z.to_nat n) bcrypt.alphabet 46). split; [|apply Z.eqb_refl].
  destruct (nth_in_or_default (Z.to_nat n) bcrypt.alphabet 46) as [Hin | ->];
    [done|].
  cbv. tauto.
Qed.

Lemma b64_encode_in l : forallb bcrypt.in_alphabet (bcrypt.b64_encode l) = true.
Proof.
  revert l. fix IH 1. intros [|b0 [|b1 [|b2 rest]]]; simpl.
  - done.
  - by rewrite !b64_char_in.
  - by rewrite !b64_char_in.
  - by rewrite !b64_char_in, IH.
Qed.

Lemma b64_encode_16 l : length l = 16%nat → length (bcrypt.b64_encode l) = 22%nat.
Proof.
  intros Hl.
  do 16 (destruct l as [|? l]; [discriminate Hl|]).
  destruct l; [reflexivity|discriminate Hl].
Qed.

(** Sixteen zero bytes give twenty-two dots, and the last character of a
    salt, which carries two bits, is one of [.], [O], [e] and [u]. *)
Example b64_encode_samples :
  bcrypt.b64_encode (repeat 0 16) = repeat 46 22
  ∧ bcrypt.b64_encode (repeat 255 16)
    = bytes_of_string "999999999999999999999u"
  ∧ map (λ b, bcrypt.b64_encode [b]) [0; 1; 2; 3]
    = map bytes_of_string [".."; ".O"; ".e"; ".u"]%string.
Proof. by vm_compute. Qed.

Lemma split_on_absent d l :
  Forall (λ c, c ≠ d) l → bcrypt.split_on d l = [l].
Proof.
  induction 1 as [|c l Hc _ IH]; simpl; [done|].
  apply Z.eqb_neq in Hc. by rewrite Hc, IH.
Qed.

Lemma in_alphabet_not_dollar body :
  forallb bcrypt.in_alphabet body = true → Forall (λ c, c ≠ 36) body.
Proof.
  intros Hb. apply List.Forall_forall. intros c Hc.
  rewrite forallb_forall in Hb. apply Hb, in_alphabet_range in Hc. lia.
Qed.

Lemma in_alphabet_ascii body :
  forallb bcrypt.in_alphabet body = true → Forall is_ascii body.
Proof.
  intros Hb. apply List.Forall_forall. intros c Hc.
  rewrite forallb_forall in Hb. apply Hb, in_alphabet_range in Hc.
  unfold is_ascii. lia.
Qed.

Lemma default_header_ascii : Forall is_ascii bcrypt.default_header.
Proof. cbv. repeat constructor; discriminate. Qed.

Lemma parse_salt_default body :
  forallb bcrypt.in_alphabet body = true →
  (22 ≤ length body)%nat →
  bcrypt.parse_salt (bcrypt.default_header ++ body)
  = Some (bcrypt.default_prefix, bcrypt.default_rounds, body).
Proof.
  intros Hb Hlen. unfold bcrypt.parse_salt.
  change (bcrypt.default_header ++ body)
    with (36 :: 50 :: 98 :: 36 :: 49 :: 50 :: 36 :: body).
  cbn [bcrypt.split_on Z.eqb Pos.eqb].
  rewrite (split_on_absent 36 body) by by apply in_alphabet_not_dollar.
  destruct body as [|c body]; [simpl in Hlen; lia|].
  cbn [List.filter bcrypt.nonempty].
  rewrite bool_decide_eq_true_2 by (cbv; set_solver).
  cbn -[Nat.leb length].
  apply Nat.leb_le in Hlen. by rewrite Hlen.
Qed.

Lemma hashpw_default password body :
  forallb bcrypt.in_alphabet body = true →
  (22 ≤ length body)%nat →
  bcrypt.hashpw password (bcrypt.default_header ++ body)
  = Ok (bcrypt.default_header ++ take 22 body
          ++ take 31 (bcrypt.b64_encode
                        (eks_blowfish bcrypt.default_rounds (take 22 body)
                           password))).
Proof.
  intros Hb Hlen. unfold bcrypt.hashpw.
  rewrite parse_salt_default by done.
  assert (forallb bcrypt.in_alphabet (take 22 body) = true) as ->.
  { rewrite forallb_forall in *. intros c Hc. apply Hb.
    eapply list_elem_of_In, (subseteq_take 22), list_elem_of_In, Hc. }
  reflexivity.
Qed.
End bcrypt_facts.

(** ** Hashing and verifying a password *)

Section password_facts.
Context `{Primitives}.

Lemma next_entropy_length n w : length (next_entropy n w) = n.
Proof. unfold next_entropy. by rewrite length_map, length_seq. Qed.

Lemma hash_with_ascii seed password :
  Forall is_ascii (bcrypt.hash_with seed password).
Proof.
  unfold bcrypt.hash_with. rewrite !Forall_app. split_and!.
  - apply default_header_ascii.
  - apply in_alphabet_ascii, b64_encode_in.
  - eapply Forall_take, in_alphabet_ascii, b64_encode_in.
Qed.

Lemma hashpw_salt seed password :
  length seed = 16%nat →
  bcrypt.hashpw password (bcrypt.default_header ++ bcrypt.b64_encode seed)
  = Ok (bcrypt.hash_with seed password).
Proof.
  intros Hseed. pose proof (b64_encode_16 seed Hseed) as Hlen.
  rewrite hashpw_default by (rewrite ?b64_encode_in, ?Hlen; done).
  by rewrite take_ge by lia.
Qed.

Lemma forallb_take {A} (f : A → bool) n l :
  forallb f l = true → forallb f (take n l) = true.
Proof.
  rewrite !forallb_forall. intros Hall x Hx. apply Hall.
  eapply list_elem_of_In, (subseteq_take n), list_elem_of_In, Hx.
Qed.

Lemma hash_body_in_alphabet seed raw :
  forallb bcrypt.in_alphabet
    (bcrypt.b64_encode seed ++ take 31 (bcrypt.b64_encode raw)) = true.
Proof.
  rewrite forallb_app, b64_encode_in. simpl.
  apply forallb_take, b64_encode_in.
Qed.

Lemma hashpw_hash seed password :
  length seed = 16%nat →
  bcrypt.hashpw password (bcrypt.hash_with seed password)
  = Ok (bcrypt.hash_with seed password).
Proof.
  intros Hseed. pose proof (b64_encode_16 seed Hseed) as Hlen.
  unfold bcrypt.hash_with at 1.
  rewrite hashpw_default.
  - by rewrite take_app_length' by done.
  - apply hash_body_in_alphabet.
  - rewrite length_app. lia.
Qed.

Lemma cost_of_hash_with seed password :
  length seed = 16%nat →
  bcrypt.cost_of (bcrypt.hash_with seed password) = Some bcrypt.default_rounds.
Proof.
  intros Hseed. pose proof (b64_encode_16 seed Hseed) as Hlen.
  unfold bcrypt.cost_of, bcrypt.hash_with.
  rewrite parse_salt_default; [done | apply hash_body_in_alphabet |].
  rewrite length_app. lia.
Qed.

Lemma get_password_hash_run password encoded w :
  utf8_encode password = Some encoded →
  get_password_hash password w
  = (Ok (bcrypt.hash_with (next_entropy 16 w) (take 72 encoded)),
     use_entropy 16 w).
Proof.
  intros Henc.
  unfold get_password_hash, bcrypt.gensalt, bcrypt.gensalt_with, bind, lift,
    ret, os_urandom, str_encode, of_option.
  rewrite Henc.
  change ((bcrypt.default_rounds <? 4) || (31 <? bcrypt.default_rounds))
    with false.
  change (bcrypt.salt_header bcrypt.default_rounds bcrypt.default_prefix)
    with bcrypt.default_header.
  cbv beta iota zeta.
  rewrite hashpw_salt by apply next_entropy_length.
  unfold bytes_decode. by rewrite utf8_decode_ascii by apply hash_with_ascii.
Qed.

Lemma get_password_hash_raises password w :
  utf8_encode password = None →
  get_password_hash password w = (Raise UnicodeEncodeError, w).
Proof.
  intros Henc. unfold get_password_hash, bind, lift, str_encode, of_option.
  by rewrite Henc.
Qed.

Lemma verify_password_hash_with password encoded seed :
  length seed = 16%nat →
  utf8_encode password = Some encoded →
  verify_password password (bcrypt.hash_with seed (take 72 encoded)) = Ok true.
Proof.
  intros Hseed Henc.
  unfold verify_password, str_encode, of_option, rbind. rewrite Henc.
  rewrite utf8_encode_ascii by apply hash_with_ascii.
  unfold bcrypt.checkpw, rbind. rewrite hashpw_hash by done.
  by rewrite bool_decide_eq_true_2.
Qed.

(** C1.  A password verifies against its own hash, and so does every
    password whose UTF-8 encoding has the same first 72 bytes: for a password
    [p1] that has a UTF-8 encoding, [get_password_hash p1] returns a hash [h]
    with [verify_password p1 h = True], and [verify_password p2 h = True] for
    every [p2] whose encoding, cut to 72 bytes, equals that of [p1]. *)
Theorem verify_password_get_password_hash (p1 p2 : text) (w : world) :
  valid_text p1 →
  take 72 <$> utf8_encode p2 = take 72 <$> utf8_encode p1 →
  ∃ h w',
    get_password_hash p1 w = (Ok h, w')
    ∧ verify_password p1 h = Ok true
    ∧ verify_password p2 h = Ok true.
Proof.
  intros Hvalid Hagree.
  destruct (utf8_encode_valid p1 Hvalid) as [b1 Hb1].
  rewrite Hb1 in Hagree.
  destruct (utf8_encode p2) as [b2|] eqn:Hb2; [|discriminate].
  injection Hagree as Hagree.
  eexists _, _. split; [by apply get_password_hash_run|].
  split.
  - apply verify_password_hash_with; [apply next_entropy_length | done].
  - rewrite <- Hagree.
    apply verify_password_hash_with; [apply next_entropy_length | done].
Qed.

(** A hash starts with [$2b$12$]: a password that does not start so is not
    its own hash. *)
Lemma get_password_hash_differs (password : text) (w : world) :
  take 7 password ≠ bytes_of_string "$2b$12$" →
  ∀ h w', get_password_hash password w = (Ok h, w') → h ≠ password.
Proof.
  intros Hmarker h w' Hrun ->.
  destruct (utf8_encode password) as [encoded|] eqn:Henc.
  - rewrite (get_password_hash_run _ _ w Henc) in Hrun.
    injection Hrun as Hhash _. apply Hmarker. by rewrite <- Hhash.
  - by rewrite (get_password_hash_raises _ w Henc) in Hrun.
Qed.

(** Whatever the settings say, the hash of a password carries the cost
    [bcrypt.gensalt()] defaults to, 12: the function never reads
    [BCRYPT_ROUNDS]. *)
Theorem get_password_hash_cost (settings : Settings) (password : text)
    (w : world) :
  valid_text password →
  ∃ h hashed w',
    get_password_hash password w = (Ok h, w')
    ∧ utf8_encode h = Some hashed
    ∧ bcrypt.cost_of hashed = Some 12.
Proof.
  intros Hvalid. destruct (utf8_encode_valid password Hvalid) as [b Hb].
  eexists _, _, _. split; [by apply get_password_hash_run|]. split.
  - apply utf8_encode_ascii, hash_with_ascii.
  - apply cost_of_hash_with, next_entropy_length.
Qed.
End password_facts.

(** ** Issuing and decoding tokens *)

Section token_facts.
Context `{Primitives}.
Variable settings : Settings.

Lemma utcnow_run w : utcnow w = (Ok (now w), tick w).
Proof. reflexivity. Qed.

Lemma signature_valid_encode claims :
  jwt.signature_valid
    (jwt.mkJws (JWT_ALGORITHM settings) claims
       (hmac_sign (JWT_ALGORITHM settings) (SECRET_KEY settings) claims))
    (SECRET_KEY settings) [JWT_ALGORITHM settings] = true.
Proof.
  unfold jwt.signature_valid. simpl.
  rewrite !bool_decide_eq_true_2; [done..|]. set_solver.
Qed.

(** The outcome of [decode_token], case by case. *)
Lemma decode_token_run tok w :
  decode_token settings tok w =
    if jwt.malformed tok
       || jwt.bad_signature tok (SECRET_KEY settings) [JWT_ALGORITHM settings]
    then (Raise (HTTPError credentials_exception), w)
    else match jwt.claims_of tok !! "exp" with
         | None => (Ok (jwt.claims_of tok), w)
         | Some _ =>
           if jwt.expired tok (now w)
           then (Raise (HTTPError credentials_exception), tick w)
           else (Ok (jwt.claims_of tok), tick w)
         end.
Proof.
  unfold decode_token, try_except, jwt.decode.
  destruct tok as [j | raw]; simpl; [|done].
  destruct (jwt.signature_valid j _ _); simpl.
  - destruct (jwt.payload j !! "exp") as [[| | exp |]|] eqn:Hexp; simpl;
      try done.
    unfold bind. rewrite utcnow_run.
    by destruct (exp <? now w).
  - by rewrite orb_true_r.
Qed.

Lemma create_access_token_run data w :
  create_access_token settings data None w =
    (Ok (jwt.encode
           (<["type" := PStr "access"]>
              (<["iat" := PInt (now (tick w))]>
                 (<["exp" := PInt (now w
                       + 60 * ACCESS_TOKEN_EXPIRE_MINUTES settings)]> data)))
           (SECRET_KEY settings) (JWT_ALGORITHM settings)),
     tick (tick w)).
Proof. reflexivity. Qed.

Lemma create_refresh_token_run data w :
  create_refresh_token settings data None w =
    (Ok (jwt.encode
           (<["type" := PStr "refresh"]>
              (<["iat" := PInt (now (tick w))]>
                 (<["exp" := PInt (now w
                       + 86400 * REFRESH_TOKEN_EXPIRE_DAYS settings)]> data)))
           (SECRET_KEY settings) (JWT_ALGORITHM settings)),
     tick (tick w)).
Proof. reflexivity. Qed.

(** A token this server signed, with an integer [exp] not yet passed,
    decodes to the claims it was given. *)
Lemma decode_token_encode claims exp w :
  claims !! "exp" = Some (PInt exp) →
  now w ≤ exp →
  decode_token settings
    (jwt.encode claims (SECRET_KEY settings) (JWT_ALGORITHM settings)) w
  = (Ok claims, tick w).
Proof.
  intros Hexp Hnow. rewrite decode_token_run. unfold jwt.encode. simpl.
  rewrite signature_valid_encode, Hexp. simpl.
  destruct (exp <? now w) eqn:E; [lia|done].
Qed.

(** C2.  A token decoded right after it was issued, that is before the clock
    passes the expiry stamped into it, yields the claims it was issued with:
    [sub] and [email] are the inputs and [type] is "access" for an access
    token; [sub] is the input, [type] is "refresh" and there is no [email]
    for a refresh token. *)
Theorem decode_token_after_issue (user_id email : string) (w : world) :
  now (tick (tick w)) ≤ now w + 60 * ACCESS_TOKEN_EXPIRE_MINUTES settings →
  now (tick (tick w)) ≤ now w + 86400 * REFRESH_TOKEN_EXPIRE_DAYS settings →
  (∃ token w' claims w'',
     create_access_token settings
       (<["email" := PStr email]> {["sub" := PStr user_id]}) None w
     = (Ok token, w')
     ∧ decode_token settings token w' = (Ok claims, w'')
     ∧ claims !! "sub" = Some (PStr user_id)
     ∧ claims !! "email" = Some (PStr email)
     ∧ claims !! "type" = Some (PStr "access"))
  ∧ (∃ token w' claims w'',
       create_refresh_token settings {["sub" := PStr user_id]} None w
       = (Ok token, w')
       ∧ decode_token settings token w' = (Ok claims, w'')
       ∧ claims !! "sub" = Some (PStr user_id)
       ∧ claims !! "email" = None
       ∧ claims !! "type" = Some (PStr "refresh")).
Proof.
  intros Haccess Hrefresh. split.
  - eexists _, _, _, _. split; [apply create_access_token_run|].
    split; [eapply decode_token_encode; [|exact Haccess]|split_and!].
    + by rewrite ?lookup_insert_ne, lookup_insert_eq by done.
    + by rewrite ?lookup_insert_ne, lookup_singleton_eq by done.
    + by rewrite ?lookup_insert_ne, lookup_insert_eq by done.
    + by rewrite lookup_insert_eq.
  - eexists _, _, _, _. split; [apply create_refresh_token_run|].
    split; [eapply decode_token_encode; [|exact Hrefresh]|split_and!].
    + by rewrite ?lookup_insert_ne, lookup_insert_eq by done.
    + by rewrite ?lookup_insert_ne, lookup_singleton_eq by done.
    + by rewrite ?lookup_insert_ne, lookup_singleton_ne by done.
    + by rewrite lookup_insert_eq.
Qed.

Lemma verify_token_type_run claims expected :
  verify_token_type claims expected =
    if bool_decide (dict_get claims "type" = PStr expected) then Ok ()
    else Raise (HTTPError
                  (token_type_exception expected (dict_get claims "type"))).
Proof.
  unfold verify_token_type.
  destruct (decide (dict_get claims "type" = PStr expected)) as [Heq | Hne].
  - rewrite bool_decide_eq_false_2, bool_decide_eq_true_2; auto.
  - rewrite bool_decide_eq_true_2, bool_decide_eq_false_2; auto.
Qed.

End token_facts.

(** ** Resolving the caller's identity *)

Section deps_facts.
Context `{Primitives}.
Variable settings : Settings.

Lemma decode_token_users tok w r w' :
  decode_token settings tok w = (r, w') → users w' = users w.
Proof.
  rewrite decode_token_run. intros Hrun.
  destruct (_ || _); [by injection Hrun as _ <-|].
  destruct (jwt.claims_of tok !! "exp"); [|by injection Hrun as _ <-].
  destruct (jwt.expired tok (now w)); by injection Hrun as _ <-.
Qed.

Lemma get_current_user_run tok w claims w' :
  decode_token settings tok w = (Ok claims, w') →
  dict_get claims "type" = PStr "access" →
  get_current_user settings tok w =
    match UUID_of (dict_get claims "sub") with
    | Ok user_id =>
      match find (λ u, bool_decide (User.id u = user_id)) (users w) with
      | None => (Raise (HTTPError user_not_found), w')
      | Some user =>
        if User.is_active user then (Ok user, w')
        else (Raise (HTTPError inactive_user), w')
      end
    | Raise (JWTError _ | ValueError _) =>
      (Raise (HTTPError could_not_validate), w')
    | Raise e => (Raise e, w')
    end.
Proof.
  intros Hdecode Htype.
  unfold get_current_user, bind at 1, try_except, bind at 1.
  rewrite Hdecode. unfold bind, lift.
  rewrite verify_token_type_run, Htype, bool_decide_eq_true_2 by done.
  destruct (UUID_of (dict_get claims "sub")) as [user_id | e].
  - unfold query_first. rewrite (decode_token_users _ _ _ _ Hdecode).
    destruct (find _ (users w)) as [user|]; [|done].
    by destruct (User.is_active user).
  - by destruct e.
Qed.

(** What [get_current_user] does with a token that [decode_token] accepts,
    whose [type] is "access" and whose [sub] is a string: when [sub] is no
    identifier the answer is a 401 with the status code and the detail of
    the rejection of an invalid token; when it names no stored user the
    answer is 404 "User not found"; when the stored user is inactive it is
    403 "Inactive user", the row being read from storage at the call;
    otherwise the stored user is returned. *)
Theorem get_current_user_outcomes (tok : jwt.token) (w w' : world)
    (claims : gmap string pyval) (sub : string) :
  decode_token settings tok w = (Ok claims, w') →
  dict_get claims "type" = PStr "access" →
  dict_get claims "sub" = PStr sub →
  (uuid_parse sub = None →
     get_current_user settings tok w
     = (Raise (HTTPError could_not_validate), w'))
  ∧ status_code could_not_validate = status_code credentials_exception
  ∧ detail could_not_validate = detail credentials_exception
  ∧ (∀ user_id, uuid_parse sub = Some user_id →
       find (λ u, bool_decide (User.id u = user_id)) (users w) = None →
       get_current_user settings tok w
       = (Raise (HTTPError user_not_found), w'))
  ∧ (∀ user_id user, uuid_parse sub = Some user_id →
       find (λ u, bool_decide (User.id u = user_id)) (users w) = Some user →
       User.is_active user = false →
       get_current_user settings tok w
       = (Raise (HTTPError inactive_user), w'))
  ∧ (∀ user_id user, uuid_parse sub = Some user_id →
       find (λ u, bool_decide (User.id u = user_id)) (users w) = Some user →
       User.is_active user = true →
       get_current_user settings tok w = (Ok user, w')).
Proof.
  intros Hdecode Htype Hsub.
  rewrite (get_current_user_run _ _ _ _ Hdecode Htype), Hsub.
  unfold UUID_of, of_option.
  split_and!; try done.
  - by intros ->.
  - by intros user_id -> ->.
  - by intros user_id user -> -> ->.
  - by intros user_id user -> -> ->.
Qed.
End deps_facts.

(** ** Register, login, refresh *)

Section auth_facts.
Context `{Primitives}.
Variable settings : Settings.

Lemma find_update_first cond f us u :
  find cond us = Some u → cond (f u) = true →
  find cond (update_first cond f us) = Some (f u).
Proof.
  intros Hfind Hf. induction us as [|x us IH]; simpl in *; [done|].
  destruct (cond x) eqn:Hx.
  - injection Hfind as ->. simpl. by rewrite Hf.
  - simpl. rewrite Hx. by apply IH.
Qed.

Lemma find_has_email email us :
  (∃ u, find (has_email email) us = Some u)
  ↔ (∃ u, u ∈ us ∧ User.email u = email).
Proof.
  split.
  - intros [u Hu]. apply find_some in Hu as [Hin Heq].
    exists u. split; [by apply list_elem_of_In|].
    by apply bool_decide_eq_true in Heq.
  - intros (u & Hin & Heq).
    destruct (find (has_email email) us) as [u'|] eqn:Hfind; [eauto|].
    apply list_elem_of_In in Hin.
    pose proof (find_none _ _ Hfind u Hin) as Hno.
    apply bool_decide_eq_false in Hno. done.
Qed.

Lemma create_token_pair_run user_id email w :
  create_token_pair settings user_id email w
  = (Ok (pair_at settings user_id email w), tick (tick (tick (tick w)))).
Proof. reflexivity. Qed.

Lemma pair_at_claims user_id email w :
  let pair := pair_at settings user_id email w in
  jwt.claims_of (Token.access_token pair) !! "type" = Some (PStr "access")
  ∧ jwt.claims_of (Token.access_token pair) !! "sub" = Some (PStr user_id)
  ∧ jwt.claims_of (Token.access_token pair) !! "email" = Some (PStr email)
  ∧ jwt.claims_of (Token.refresh_token pair) !! "type" = Some (PStr "refresh")
  ∧ jwt.claims_of (Token.refresh_token pair) !! "sub" = Some (PStr user_id)
  ∧ Token.token_type pair = "bearer"%string.
Proof.
  simpl. split_and!; done.
Qed.

Lemma login_run login_data w :
  login settings login_data w =
    match find (has_email (LoginRequest.email login_data)) (users w) with
    | None => (Raise (HTTPError invalid_credentials), w)
    | Some user =>
      match verify_password (LoginRequest.password login_data)
              (User.hashed_password user) with
      | Raise e => (Raise e, w)
      | Ok false => (Raise (HTTPError invalid_credentials), w)
      | Ok true =>
        if User.is_active user
        then create_token_pair settings (uuid_str (User.id user))
               (User.email user)
               (set_users
                  (update_first (has_email (LoginRequest.email login_data))
                     (User.set_last_login (Some (now w))) (users w))
                  (tick w))
        else (Raise (HTTPError inactive_user), w)
      end
    end.
Proof.
  unfold login, bind at 1, query_first.
  destruct (find _ (users w)) as [user|]; [|done].
  unfold bind at 1, lift.
  destruct (verify_password _ _) as [[|]|e]; try done. simpl.
  by destruct (User.is_active user).
Qed.

(** C5.  An unknown e-mail and a known e-mail with a password that does not
    verify get the same answer, the 401 "Incorrect email or password", and
    leave the world as it was; a known, verified but inactive user gets the
    403 "Inactive user"; a known, verified, active user has the time of the
    call written to [last_login] and receives an access token and a refresh
    token for their identifier. *)
Theorem login_outcomes :
  (∀ login_data w,
     find (has_email (LoginRequest.email login_data)) (users w) = None →
     login settings login_data w = (Raise (HTTPError invalid_credentials), w))
  ∧ (∀ login_data w user,
       find (has_email (LoginRequest.email login_data)) (users w) = Some user →
       verify_password (LoginRequest.password login_data) (User.hashed_password user)
       = Ok false →
       login settings login_data w
       = (Raise (HTTPError invalid_credentials), w))
  ∧ (∀ unknown w1 wrong w2 user,
       find (has_email (LoginRequest.email unknown)) (users w1) = None →
       find (has_email (LoginRequest.email wrong)) (users w2) = Some user →
       verify_password (LoginRequest.password wrong) (User.hashed_password user)
       = Ok false →
       (login settings unknown w1).1 = (login settings wrong w2).1)
  ∧ (∀ login_data w user,
       find (has_email (LoginRequest.email login_data)) (users w) = Some user →
       verify_password (LoginRequest.password login_data) (User.hashed_password user)
       = Ok true →
       User.is_active user = false →
       login settings login_data w = (Raise (HTTPError inactive_user), w))
  ∧ (∀ login_data w user,
       find (has_email (LoginRequest.email login_data)) (users w) = Some user →
       verify_password (LoginRequest.password login_data) (User.hashed_password user)
       = Ok true →
       User.is_active user = true →
       ∃ pair w',
         login settings login_data w = (Ok pair, w')
         ∧ find (has_email (LoginRequest.email login_data)) (users w')
           = Some (User.set_last_login (Some (now w)) user)
         ∧ users w'
           = update_first (has_email (LoginRequest.email login_data))
               (User.set_last_login (Some (now w))) (users w)
         ∧ jwt.claims_of (Token.access_token pair) !! "type" = Some (PStr "access")
         ∧ jwt.claims_of (Token.access_token pair) !! "sub"
           = Some (PStr (uuid_str (User.id user)))
         ∧ jwt.claims_of (Token.refresh_token pair) !! "type"
           = Some (PStr "refresh")
         ∧ jwt.claims_of (Token.refresh_token pair) !! "sub"
           = Some (PStr (uuid_str (User.id user)))).
Proof.
  split_and!.
  - intros d w Hfind. by rewrite login_run, Hfind.
  - intros d w user Hfind Hverify. by rewrite login_run, Hfind, Hverify.
  - intros d1 w1 d2 w2 user Hnone Hfind Hverify.
    by rewrite !login_run, Hnone, Hfind, Hverify.
  - intros d w user Hfind Hverify Hactive.
    by rewrite login_run, Hfind, Hverify, Hactive.
  - intros d w user Hfind Hverify Hactive.
    rewrite login_run, Hfind, Hverify, Hactive, create_token_pair_run.
    eexists _, _. split; [done|]. simpl.
    split; [|by split_and!].
    apply find_update_first; [done|].
    apply find_some in Hfind as [_ Hemail]. exact Hemail.
Qed.

Lemma refresh_token_run tok w :
  refresh_token settings tok w =
    match decode_token settings tok w with
    | (Raise _, w') => (Raise (HTTPError invalid_refresh_token), w')
    | (Ok claims, w') =>
      if bool_decide (dict_get claims "type" = PStr "refresh") then
        match find (λ u, id_column_eq (User.id u) (dict_get claims "sub"))
                (users w') with
        | None => (Raise (HTTPError not_found_or_inactive), w')
        | Some user =>
          if User.is_active user
          then create_token_pair settings (uuid_str (User.id user))
                 (User.email user) w'
          else (Raise (HTTPError not_found_or_inactive), w')
        end
      else (Raise (HTTPError invalid_refresh_token), w')
    end.
Proof.
  unfold refresh_token, bind at 1, try_except, bind at 1.
  destruct (decode_token settings tok w) as [[claims | e] w']; [|done].
  unfold bind at 1, lift. rewrite verify_token_type_run.
  case_bool_decide; [|done].
  unfold ret, bind, query_first.
  destruct (find _ (users w')) as [user|]; [|done].
  by destruct (User.is_active user).
Qed.

(** C6 (as the code has it).  [refresh_token] answers a decodable token whose
    [type] is not "refresh", an access token in particular, with the 401
    "Invalid refresh token": the answer it gives to a token that does not
    decode, not the "Invalid token type" error of [verify_token_type]. *)
Theorem refresh_token_wrong_type (tok : jwt.token) (w w' : world)
    (claims : gmap string pyval) :
  decode_token settings tok w = (Ok claims, w') →
  dict_get claims "type" = PStr "access" →
  refresh_token settings tok w = (Raise (HTTPError invalid_refresh_token), w')
  ∧ (∀ bad w0, is_ok (decode_token settings bad w0).1 = false →
       (refresh_token settings bad w0).1
       = Raise (HTTPError invalid_refresh_token))
  ∧ HTTPError invalid_refresh_token
    ≠ HTTPError (token_type_exception "refresh" (PStr "access")).
Proof.
  intros Hdecode Htype. split_and!.
  - rewrite refresh_token_run, Hdecode, Htype.
    by rewrite bool_decide_eq_false_2.
  - intros bad w0 Hbad. rewrite refresh_token_run.
    by destruct (decode_token settings bad w0) as [[?|?] ?].
  - done.
Qed.

Lemma register_run user_in w :
  register user_in w =
    match find (has_email (UserCreate.email user_in)) (users w) with
    | Some _ => (Raise (HTTPError email_taken), w)
    | None =>
      match get_password_hash (UserCreate.password user_in) w with
      | (Raise e, w1) => (Raise e, w1)
      | (Ok hashed, w1) =>
        let user :=
          User.mk (row_ids w1 (rows_added w1)) (UserCreate.email user_in)
            (UserCreate.full_name user_in) hashed true false (now w1) (now (tick w1))
            None in
        (Ok user,
         mkWorld (users w1 ++ [user]) (utc_clock w1) (S (S (clock_reads w1)))
           (entropy w1) (entropy_used w1) (row_ids w1) (S (rows_added w1)))
      end
    end.
Proof.
  unfold register, bind at 1, query_first.
  destruct (find _ (users w)); [done|].
  unfold bind at 1.
  by destruct (get_password_hash _ w) as [[hashed | e] w1].
Qed.

(** C7.  [register] fails with the 400 "Email already registered" exactly
    when a stored user has the very e-mail of the request, and then writes
    nothing; otherwise, the password being text that can be encoded, it
    appends a user whose [hashed_password] is what [get_password_hash]
    returns for the password of the request and whose [is_active] is true,
    and returns that user. *)
Theorem register_outcomes (user_in : UserCreate.t) (w : world) :
  ((register user_in w).1 = Raise (HTTPError email_taken)
     ↔ ∃ u, u ∈ users w ∧ User.email u = UserCreate.email user_in)
  ∧ ((∃ u, u ∈ users w ∧ User.email u = UserCreate.email user_in) →
       register user_in w = (Raise (HTTPError email_taken), w))
  ∧ ((∀ u, u ∈ users w → User.email u ≠ UserCreate.email user_in) →
     valid_text (UserCreate.password user_in) →
       ∃ hashed w1 user w',
         get_password_hash (UserCreate.password user_in) w = (Ok hashed, w1)
         ∧ register user_in w = (Ok user, w')
         ∧ users w' = users w ++ [user]
         ∧ User.hashed_password user = hashed
         ∧ User.is_active user = true
         ∧ User.email user = UserCreate.email user_in
         ∧ User.full_name user = UserCreate.full_name user_in).
Proof.
  rewrite register_run.
  destruct (find (has_email (UserCreate.email user_in)) (users w))
    as [u|] eqn:Hfind.
  - assert (∃ u, u ∈ users w ∧ User.email u = UserCreate.email user_in)
      as Hex by (apply find_has_email; eauto).
    split_and!; [done..|]. intros Hnone. destruct Hex as (u' & Hin & Heq).
    by destruct (Hnone u' Hin).
  - assert (¬ ∃ u, u ∈ users w ∧ User.email u = UserCreate.email user_in)
      as Hno.
    { intros Hex. apply find_has_email in Hex as [u Hu]. congruence. }
    split_and!; [|done|].
    + destruct (utf8_encode (UserCreate.password user_in)) as [encoded|]
        eqn:Henc.
      * by rewrite (get_password_hash_run _ _ w Henc).
      * by rewrite (get_password_hash_raises _ w Henc).
    + intros _ Hvalid.
      destruct (utf8_encode_valid _ Hvalid) as [encoded Henc].
      rewrite (get_password_hash_run _ _ w Henc).
      eexists _, _, _, _. split; [done|]. split; [done|]. by split_and!.
Qed.

Lemma password_ok_iff password :
  password_ok password = true
  ↔ (8 ≤ length password ≤ 100)%nat
    ∧ existsb char_isupper password = true
    ∧ existsb char_islower password = true
    ∧ existsb char_isdigit password = true.
Proof. unfold password_ok. rewrite !andb_true_iff, !Nat.leb_le. tauto. Qed.

Lemma password_field_ok password :
  password_ok password = true → password_field password = Ok password.
Proof.
  intros Hok. apply password_ok_iff in Hok as ([Hmin Hmax] & Hu & Hl & Hd).
  unfold password_field, validate_password.
  rewrite (proj2 (Nat.ltb_ge _ 8)), (proj2 (Nat.ltb_ge 100 _)) by done.
  by rewrite Hu, Hl, Hd.
Qed.

Lemma password_field_weak password :
  password_ok password = false →
  ∃ msg, password_field password = Raise (ValueError msg).
Proof.
  unfold password_ok, password_field, validate_password. intros Hweak.
  destruct (Nat.ltb_spec (length password) 8); [eauto|].
  destruct (Nat.ltb_spec 100 (length password)); [eauto|].
  rewrite (proj2 (Nat.leb_le 8 _)), (proj2 (Nat.leb_le _ 100)) in Hweak
    by done.
  destruct (existsb char_isupper password); [|eauto].
  destruct (existsb char_islower password); [|eauto].
  destruct (existsb char_isdigit password); [done|eauto].
Qed.

Lemma post_register_weak email full_name password w :
  password_ok password = false →
  ∃ errors,
    post_register email full_name password w
    = (Raise (RequestValidationError errors), w).
Proof.
  intros Hweak. destruct (password_field_weak _ Hweak) as [msg Hfield].
  unfold post_register, bind, lift, UserCreate_validate. rewrite Hfield.
  destruct (email_field email); eauto.
Qed.

(** C10.  The route rejects a request whose password is shorter than 8
    characters, longer than 100, or without an uppercase letter, a lowercase
    letter or a digit, and leaves the world untouched: nothing was hashed (no
    entropy was drawn) and nothing was stored.  A [UserCreate] only ever
    holds a password that meets all of these. *)
Theorem post_register_rejects_weak_password (email : string)
    (full_name : option string) (password : text) (w : world) :
  ((length password < 8)%nat ∨ (100 < length password)%nat
   ∨ existsb char_isupper password = false
   ∨ existsb char_islower password = false
   ∨ existsb char_isdigit password = false →
     ∃ errors,
       post_register email full_name password w
       = (Raise (RequestValidationError errors), w))
  ∧ (∀ user_in,
       UserCreate_validate email full_name password = Ok user_in →
       UserCreate.password user_in = password
       ∧ (8 ≤ length password ≤ 100)%nat
       ∧ existsb char_isupper password = true
       ∧ existsb char_islower password = true
       ∧ existsb char_isdigit password = true)
  ∧ ((post_register email full_name password w).2 ≠ w →
       (8 ≤ length password ≤ 100)%nat
       ∧ existsb char_isupper password = true
       ∧ existsb char_islower password = true
       ∧ existsb char_isdigit password = true).
Proof.
  split_and!.
  - intros Hweak. apply post_register_weak.
    destruct (password_ok password) eqn:Hok; [|done].
    apply password_ok_iff in Hok as (? & ? & ? & ?).
    destruct Hweak as [?|[?|[?|[?|?]]]]; (lia || congruence).
  - intros user_in. unfold UserCreate_validate.
    destruct (password_ok password) eqn:Hok.
    + rewrite (password_field_ok _ Hok).
      destruct (email_field email); [|done].
      intros [= <-]. split; [done|]. by apply password_ok_iff.
    + destruct (password_field_weak _ Hok) as [msg ->].
      by destruct (email_field email).
  - intros Hchanged. apply password_ok_iff.
    destruct (password_ok password) eqn:Hok; [done|].
    destruct (post_register_weak email full_name _ w Hok) as [errors Hrun].
    by rewrite Hrun in Hchanged.
Qed.

(** What [POST /register] answers on success is read off the new row without
    its [hashed_password]: the response is fixed by the request, the clock
    and the identifier the row received, and rows that differ in
    [hashed_password] only have the same response. *)
Lemma post_register_response email full_name password user_in w :
  valid_text password →
  UserCreate_validate email full_name password = Ok user_in →
  find (has_email (UserCreate.email user_in)) (users w) = None →
  (post_register email full_name password w).1
  = Ok (UserResponse.mk (UserCreate.email user_in) full_name
          (row_ids w (rows_added w)) true false (now w) (now (tick w)) None)
  ∧ ∀ i e f h1 h2 a v c u l,
      UserResponse.from_user (User.mk i e f h1 a v c u l)
      = UserResponse.from_user (User.mk i e f h2 a v c u l).
Proof.
  intros Hvalid Hin Hfree. split; [|done].
  unfold post_register, bind at 1, lift. rewrite Hin.
  unfold bind, ret. rewrite register_run, Hfree.
  assert (UserCreate.password user_in = password
          ∧ UserCreate.full_name user_in = full_name) as [Hpw Hname].
  { unfold UserCreate_validate in Hin.
    destruct (email_field email); [|done].
    destruct (password_field password) eqn:Hfield; [|done].
    injection Hin as <-. split; [|done]. simpl.
    unfold password_field, validate_password in Hfield.
    repeat (destruct (_ : bool) in Hfield; try done).
    by injection Hfield. }
  rewrite Hpw, Hname.
  destruct (utf8_encode_valid _ Hvalid) as [encoded Henc].
  by rewrite (get_password_hash_run _ _ w Henc).
Qed.
End auth_facts.

(** * Further properties of the authentication core *)

(** ** Password strength and API keys *)

Section security_more_facts.
Context `{Primitives}.

(** [validate_password_strength] accepts a password exactly when it has at
    least eight characters, an uppercase letter, a lowercase letter, a digit
    and one of the listed special characters, and gives a message exactly
    when it does not.  It asks more than registration does: what it accepts
    (up to 100 characters) the [UserCreate] password field accepts, while a
    password without a special character that registration accepts it turns
    away. *)
Theorem validate_password_strength_spec (password : text) :
  ((validate_password_strength password).1 = true
     ↔ (8 ≤ length password)%nat
       ∧ existsb char_isupper password = true
       ∧ existsb char_islower password = true
       ∧ existsb char_isdigit password = true
       ∧ existsb is_special password = true)
  ∧ ((validate_password_strength password).1 = true
       ↔ (validate_password_strength password).2 = None)
  ∧ ((validate_password_strength password).1 = true →
     (length password ≤ 100)%nat →
       password_field password = Ok password)
  ∧ (password_field password = Ok password →
     existsb is_special password = false →
       (validate_password_strength password).1 = false).
Proof.
  unfold validate_password_strength.
  destruct (Nat.ltb_spec (length password) 8) as [Hshort | Hlong];
    cbn [fst snd negb].
  { split_and!; intuition (congruence || lia). }
  destruct (existsb char_isupper password) eqn:Hu; cbn [fst snd negb];
    [|split_and!; intuition congruence].
  destruct (existsb char_islower password) eqn:Hl; cbn [fst snd negb];
    [|split_and!; intuition congruence].
  destruct (existsb char_isdigit password) eqn:Hd; cbn [fst snd negb];
    [|split_and!; intuition congruence].
  destruct (existsb is_special password) eqn:Hs; cbn [fst snd negb];
    [|split_and!; intuition congruence].
  split_and!; [intuition (congruence || lia) | done | | congruence].
  intros _ Hmax. apply password_field_ok, password_ok_iff. by split_and!.
Qed.

Lemma urlsafe_alphabet_range :
  Forall (λ c, 45 ≤ c ≤ 122 ∧ c ≠ 61) base64.urlsafe_alphabet.
Proof. cbv. repeat constructor; discriminate. Qed.

Lemma urlsafe_char_range n :
  45 ≤ base64.urlsafe_char n ≤ 122 ∧ base64.urlsafe_char n ≠ 61.
Proof.
  unfold base64.urlsafe_char.
  pose proof urlsafe_alphabet_range as Hr. rewrite List.Forall_forall in Hr.
  destruct (nth_in_or_default (Z.to_nat n) base64.urlsafe_alphabet 65)
    as [Hin | ->]; [by apply Hr | lia].
Qed.

(** The unpadded part of an encoding: four characters for three bytes, two
    for a last single byte and three for a last pair. *)
Lemma urlsafe_b64encode_split l :
  ∃ body k,
    base64.urlsafe_b64encode l = body ++ repeat 61 k
    ∧ Forall (λ c, 45 ≤ c ≤ 122 ∧ c ≠ 61) body
    ∧ length body = ((4 * length l + 2) / 3)%nat.
Proof.
  revert l. fix IH 1. intros [|b0 [|b1 [|b2 rest]]].
  - by exists [], 0%nat.
  - eexists [_; _], 2%nat. split; [reflexivity|]. split; [|done].
    repeat constructor; apply urlsafe_char_range.
  - eexists [_; _; _], 1%nat. split; [reflexivity|]. split; [|done].
    repeat constructor; apply urlsafe_char_range.
  - destruct (IH rest) as (body & k & Henc & Hbody & Hlen).
    eexists (_ :: _ :: _ :: _ :: body), k.
    split; [simpl; by rewrite Henc|]. split.
    + repeat (constructor; [apply urlsafe_char_range|]). exact Hbody.
    + simpl length. rewrite Hlen.
      replace (4 * S (S (S (length rest))) + 2)%nat
        with (4 * 3 + (4 * length rest + 2))%nat by lia.
      rewrite (Nat.add_comm (4 * 3)), Nat.div_add by done. lia.
Qed.

Lemma rstrip_pad_padded body k :
  Forall (λ c, 45 ≤ c ≤ 122 ∧ c ≠ 61) body →
  rstrip_pad (body ++ repeat 61 k) = body.
Proof.
  intros Hbody. induction Hbody as [|c body [_ Hc] _ IH]; simpl.
  - induction k as [|k IHk]; simpl; [done|]. by rewrite IHk.
  - rewrite IH. apply Z.eqb_neq in Hc. rewrite Hc. by destruct body.
Qed.

(** An API key that [generate_api_key] made and [hash_api_key] hashed is
    accepted by [verify_api_key]; the key has 43 ASCII characters, so that,
    unlike a long password, all of it enters the hash. *)
Theorem api_key_round_trip (w : world) :
  ∃ key w1 hashed w2,
    generate_api_key w = (Ok key, w1)
    ∧ length key = 43%nat
    ∧ Forall is_ascii key
    ∧ (take 72 <$> utf8_encode key) = Some key
    ∧ hash_api_key key w1 = (Ok hashed, w2)
    ∧ verify_api_key key hashed = Ok true.
Proof.
  destruct (urlsafe_b64encode_split (next_entropy 32 w))
    as (key & k & Henc & Hkey & Hlen).
  rewrite next_entropy_length in Hlen. change (length key = 43%nat) in Hlen.
  assert (Forall is_ascii key) as Hascii.
  { eapply Forall_impl; [exact Hkey|]. unfold is_ascii. simpl. lia. }
  assert (utf8_encode key = Some key) as Hutf by by apply utf8_encode_ascii.
  exists key, (use_entropy 32 w). eexists _, _. split_and!; try done.
  - unfold generate_api_key, token_urlsafe, bind, os_urandom, lift.
    rewrite Henc, rstrip_pad_padded by done. unfold decode_ascii.
    assert (forallb (λ b, (0 <=? b) && (b <? 128)) key = true) as ->; [|done].
    apply forallb_forall. intros c Hc.
    rewrite List.Forall_forall in Hascii. apply Hascii in Hc.
    unfold is_ascii in Hc. apply andb_true_iff. split; [lia|].
    apply Z.ltb_lt. lia.
  - rewrite Hutf. simpl. by rewrite take_ge by lia.
  - by apply get_password_hash_run.
  - unfold verify_api_key.
    apply verify_password_hash_with; [apply next_entropy_length | done].
Qed.
End security_more_facts.

(** ** What a token carries and how long it lasts *)

Section token_more_facts.
Context `{Primitives}.
Variable settings : Settings.

Lemma create_access_token_run_delta data expires_delta w :
  create_access_token settings data expires_delta w =
    (Ok (jwt.encode
           (issued_claims "access"
              (token_lifetime (60 * ACCESS_TOKEN_EXPIRE_MINUTES settings)
                 expires_delta) data w)
           (SECRET_KEY settings) (JWT_ALGORITHM settings)),
     tick (tick w)).
Proof.
  unfold create_access_token, token_lifetime.
  destruct expires_delta as [d|]; [by destruct (d =? 0)|done].
Qed.

Lemma create_refresh_token_run_delta data expires_delta w :
  create_refresh_token settings data expires_delta w =
    (Ok (jwt.encode
           (issued_claims "refresh"
              (token_lifetime (86400 * REFRESH_TOKEN_EXPIRE_DAYS settings)
                 expires_delta) data w)
           (SECRET_KEY settings) (JWT_ALGORITHM settings)),
     tick (tick w)).
Proof.
  unfold create_refresh_token, token_lifetime.
  destruct expires_delta as [d|]; [by destruct (d =? 0)|done].
Qed.

Lemma issued_claims_lookup type lifetime data w :
  issued_claims type lifetime data w !! "type" = Some (PStr type)
  ∧ issued_claims type lifetime data w !! "iat" = Some (PInt (now (tick w)))
  ∧ issued_claims type lifetime data w !! "exp"
    = Some (PInt (now w + lifetime))
  ∧ ∀ k : string, k ≠ "type"%string → k ≠ "iat"%string → k ≠ "exp"%string →
      issued_claims type lifetime data w !! k = data !! k.
Proof.
  unfold issued_claims. split_and!.
  - by rewrite lookup_insert_eq.
  - by rewrite lookup_insert_ne, lookup_insert_eq by done.
  - by rewrite !lookup_insert_ne, lookup_insert_eq by done.
  - intros k ? ? ?. by rewrite !lookup_insert_ne by done.
Qed.

(** Whatever [data] and [expires_delta] a caller passes, the token of
    [create_access_token] has type "access" and that of
    [create_refresh_token] type "refresh", with [exp] and [iat] set from the
    clock ([expires_delta] of zero counts as not given); entries of [data]
    under these three names are overwritten, all others are kept.  So [data]
    cannot make an access token pass for a refresh token, or the reverse. *)
Theorem issued_claims_fixed (data : gmap string pyval)
    (expires_delta : option Z) (w : world) :
  ∃ access refresh,
    create_access_token settings data expires_delta w
    = (Ok access, tick (tick w))
    ∧ create_refresh_token settings data expires_delta w
      = (Ok refresh, tick (tick w))
    ∧ jwt.claims_of access !! "type" = Some (PStr "access")
    ∧ jwt.claims_of refresh !! "type" = Some (PStr "refresh")
    ∧ jwt.claims_of access !! "exp"
      = Some (PInt (now w
                    + token_lifetime
                        (60 * ACCESS_TOKEN_EXPIRE_MINUTES settings)
                        expires_delta))
    ∧ jwt.claims_of refresh !! "exp"
      = Some (PInt (now w
                    + token_lifetime
                        (86400 * REFRESH_TOKEN_EXPIRE_DAYS settings)
                        expires_delta))
    ∧ jwt.claims_of access !! "iat" = Some (PInt (now (tick w)))
    ∧ jwt.claims_of refresh !! "iat" = Some (PInt (now (tick w)))
    ∧ (∀ k : string,
         k ≠ "type"%string → k ≠ "iat"%string → k ≠ "exp"%string →
         jwt.claims_of access !! k = data !! k
         ∧ jwt.claims_of refresh !! k = data !! k)
    ∧ is_ok (verify_token_type (jwt.claims_of access) "refresh") = false
    ∧ is_ok (verify_token_type (jwt.claims_of refresh) "access") = false.
Proof.
  eexists _, _.
  split; [apply create_access_token_run_delta|].
  split; [apply create_refresh_token_run_delta|].
  unfold jwt.encode, jwt.claims_of, jwt.payload.
  split_and!; try apply issued_claims_lookup.
  - intros k ? ? ?. split; by apply issued_claims_lookup.
  - rewrite verify_token_type_run. unfold dict_get.
    by rewrite (proj1 (issued_claims_lookup _ _ _ _)).
  - rewrite verify_token_type_run. unfold dict_get.
    by rewrite (proj1 (issued_claims_lookup _ _ _ _)).
Qed.

Lemma decode_token_issued type lifetime data w w' :
  decode_token settings
    (jwt.encode (issued_claims type lifetime data w) (SECRET_KEY settings)
       (JWT_ALGORITHM settings)) w'
  = if now w + lifetime <? now w'
    then (Raise (HTTPError credentials_exception), tick w')
    else (Ok (issued_claims type lifetime data w), tick w').
Proof.
  rewrite decode_token_run. unfold jwt.encode. simpl.
  rewrite signature_valid_encode.
  destruct (issued_claims_lookup type lifetime data w) as (_ & _ & -> & _).
  done.
Qed.

(** A token issued for plain claims (those of a user, [sub] and [email],
    among them) is accepted by [decode_token] up to and including the clock
    reading [exp], and at no later one: with the reading at issuance [t] and
    the lifetime [l] (the configured one, or a non-zero [expires_delta]), it
    decodes at reading [t'] exactly when [t' ≤ t + l], and then to its own
    claims.  In particular a token issued with a negative [expires_delta] is
    never accepted by a clock that does not run backwards. *)
Theorem issued_token_valid_until (data : gmap string pyval)
    (expires_delta : option Z) (w w' : world) :
  plain_claims data →
  ∃ access refresh,
    create_access_token settings data expires_delta w
    = (Ok access, tick (tick w))
    ∧ create_refresh_token settings data expires_delta w
      = (Ok refresh, tick (tick w))
    ∧ (is_ok (decode_token settings access w').1 = true
         ↔ now w' ≤ now w
                    + token_lifetime
                        (60 * ACCESS_TOKEN_EXPIRE_MINUTES settings)
                        expires_delta)
    ∧ (is_ok (decode_token settings refresh w').1 = true
         ↔ now w' ≤ now w
                    + token_lifetime
                        (86400 * REFRESH_TOKEN_EXPIRE_DAYS settings)
                        expires_delta)
    ∧ (is_ok (decode_token settings access w').1 = true →
         (decode_token settings access w').1 = Ok (jwt.claims_of access))
    ∧ (is_ok (decode_token settings refresh w').1 = true →
         (decode_token settings refresh w').1 = Ok (jwt.claims_of refresh)).
Proof.
  intros _. eexists _, _.
  split; [apply create_access_token_run_delta|].
  split; [apply create_refresh_token_run_delta|].
  rewrite !decode_token_issued.
  split_and!.
  - destruct (Z.ltb_spec (now w + token_lifetime
        (60 * ACCESS_TOKEN_EXPIRE_MINUTES settings) expires_delta) (now w'));
      simpl; intuition (congruence || lia).
  - destruct (Z.ltb_spec (now w + token_lifetime
        (86400 * REFRESH_TOKEN_EXPIRE_DAYS settings) expires_delta) (now w'));
      simpl; intuition (congruence || lia).
  - by destruct (_ <? _).
  - by destruct (_ <? _).
Qed.
End token_more_facts.

(** ** Resolving a token, again *)

Section resolve_facts.
Context `{Primitives}.
Variable settings : Settings.

Lemma decode_token_error tok w e w' :
  decode_token settings tok w = (Raise e, w') →
  e = HTTPError credentials_exception.
Proof.
  rewrite decode_token_run. intros Hrun.
  destruct (_ || _); [by injection Hrun as <- _|].
  destruct (jwt.claims_of tok !! "exp"); [|done].
  destruct (jwt.expired tok (now w)); [by injection Hrun as <- _|done].
Qed.

Lemma get_current_user_decode_error tok w e w' :
  decode_token settings tok w = (Raise e, w') →
  get_current_user settings tok w
  = (Raise (HTTPError credentials_exception), w').
Proof.
  intros Hdecode. pose proof (decode_token_error _ _ _ _ Hdecode) as ->.
  unfold get_current_user, bind at 1, try_except, bind at 1.
  by rewrite Hdecode.
Qed.

Lemma get_current_user_wrong_type tok w claims w' :
  decode_token settings tok w = (Ok claims, w') →
  dict_get claims "type" ≠ PStr "access" →
  get_current_user settings tok w
  = (Raise (HTTPError
       (token_type_exception "access" (dict_get claims "type"))), w').
Proof.
  intros Hdecode Htype.
  unfold get_current_user, bind at 1, try_except, bind at 1.
  rewrite Hdecode. unfold bind at 1, lift.
  by rewrite verify_token_type_run, bool_decide_eq_false_2.
Qed.

Lemma get_current_user_Ok tok w user w1 :
  get_current_user settings tok w = (Ok user, w1) →
  ∃ claims user_id,
    decode_token settings tok w = (Ok claims, w1)
    ∧ dict_get claims "type" = PStr "access"
    ∧ UUID_of (dict_get claims "sub") = Ok user_id
    ∧ find (has_id user_id) (users w) = Some user
    ∧ User.is_active user = true.
Proof.
  intros Hrun.
  destruct (decode_token settings tok w) as [[claims | e] w'] eqn:Hdecode.
  - destruct (decide (dict_get claims "type" = PStr "access"))
      as [Htype | Htype].
    + rewrite (get_current_user_run _ _ _ _ _ Hdecode Htype) in Hrun.
      destruct (UUID_of (dict_get claims "sub")) as [user_id | e] eqn:Hsub.
      * change (λ u, bool_decide (User.id u = user_id))
          with (has_id user_id) in Hrun.
        destruct (find (has_id user_id) (users w)) as [u|] eqn:Hfind;
          [|done].
        destruct (User.is_active u) eqn:Hactive; [|done].
        injection Hrun as -> ->. by exists claims, user_id.
      * by destruct e.
    + by rewrite (get_current_user_wrong_type _ _ _ _ Hdecode Htype) in Hrun.
  - by rewrite (get_current_user_decode_error _ _ _ _ Hdecode) in Hrun.
Qed.

Lemma get_current_user_users tok w :
  users (get_current_user settings tok w).2 = users w.
Proof.
  destruct (decode_token settings tok w) as [[claims | e] w'] eqn:Hdecode.
  - pose proof (decode_token_users _ _ _ _ _ Hdecode) as Husers.
    destruct (decide (dict_get claims "type" = PStr "access"))
      as [Htype | Htype].
    + rewrite (get_current_user_run _ _ _ _ _ Hdecode Htype).
      destruct (UUID_of (dict_get claims "sub")) as [user_id | e].
      * destruct (find _ (users w)) as [u|]; [|done].
        by destruct (User.is_active u).
      * by destruct e.
    + by rewrite (get_current_user_wrong_type _ _ _ _ Hdecode Htype).
  - pose proof (decode_token_users _ _ _ _ _ Hdecode) as Husers.
    by rewrite (get_current_user_decode_error _ _ _ _ Hdecode).
Qed.

(** [get_current_user] hands on the two rejections raised before it parses
    [sub] as they are: a token that does not decode gets [decode_token]'s 401
    "Could not validate credentials", and a token that decodes but is not of
    type "access" (a refresh token, say) gets [verify_token_type]'s 401
    "Invalid token type", both with the [WWW-Authenticate] header; its own
    [except] clause rewrites neither.  Whatever the outcome, it writes
    nothing to the user table. *)
Theorem get_current_user_rejections (tok : jwt.token) (w : world) :
  (is_ok (decode_token settings tok w).1 = false →
     (get_current_user settings tok w).1
     = Raise (HTTPError credentials_exception))
  ∧ (∀ claims w',
       decode_token settings tok w = (Ok claims, w') →
       dict_get claims "type" ≠ PStr "access" →
       get_current_user settings tok w
       = (Raise (HTTPError
            (token_type_exception "access" (dict_get claims "type"))), w'))
  ∧ users (get_current_user settings tok w).2 = users w.
Proof.
  split_and!.
  - destruct (decode_token settings tok w) as [[claims | e] w'] eqn:Hdecode;
      [done|]. intros _.
    by rewrite (get_current_user_decode_error _ _ _ _ Hdecode).
  - apply get_current_user_wrong_type.
  - apply get_current_user_users.
Qed.

(** The check of [get_current_active_user] never fires: [get_current_user]
    has already turned an inactive user away, so the two dependencies give
    the same result on every token and in every state. *)
Theorem get_current_active_user_same (tok : jwt.token) (w : world) :
  get_current_active_user settings tok w = get_current_user settings tok w.
Proof.
  unfold get_current_active_user, bind.
  destruct (get_current_user settings tok w) as [[user | e] w1] eqn:Hrun;
    [|done].
  apply get_current_user_Ok in Hrun as (_ & _ & _ & _ & _ & _ & ->). done.
Qed.

Lemma decode_token_again tok w claims w1 w2 :
  decode_token settings tok w = (Ok claims, w1) →
  jwt.expired tok (now w2) = false →
  decode_token settings tok w2 = (Ok claims, (decode_token settings tok w2).2).
Proof.
  rewrite !decode_token_run. intros Hfirst Hfresh.
  destruct (_ || _); [done|].
  destruct (jwt.claims_of tok !! "exp").
  - rewrite Hfresh. destruct (jwt.expired tok (now w)); [done|].
    by injection Hfirst as -> _.
  - by injection Hfirst as -> _.
Qed.

(** [logout] revokes nothing: it answers every token [get_current_user]
    accepts, changes no row, and the same token, as long as it has not
    expired, resolves to the same user afterwards. *)
Theorem logout_revokes_nothing (tok : jwt.token) (w w1 : world)
    (user : User.t) :
  get_current_user settings tok w = (Ok user, w1) →
  logout settings tok w
  = (Ok {["message" := PStr "Successfully logged out"]}, w1)
  ∧ users w1 = users w
  ∧ (jwt.expired tok (now w1) = false →
       (get_current_user settings tok w1).1 = Ok user).
Proof.
  intros Hrun. split_and!.
  - unfold logout, bind. by rewrite Hrun.
  - pose proof (get_current_user_users tok w) as Husers.
    by rewrite Hrun in Husers.
  - intros Hfresh.
    pose proof (get_current_user_users tok w) as Husers.
    rewrite Hrun in Husers. simpl in Husers.
    apply get_current_user_Ok in Hrun
      as (claims & user_id & Hdecode & Htype & Hsub & Hfind & Hactive).
    pose proof (decode_token_again _ _ _ _ _ Hdecode Hfresh) as Hagain.
    rewrite (get_current_user_run _ _ _ _ _ Hagain Htype), Hsub.
    change (λ u, bool_decide (User.id u = user_id)) with (has_id user_id).
    by rewrite Husers, Hfind, Hactive.
Qed.
End resolve_facts.

(** ** Sessions: registering, logging in, resolving, refreshing *)

Section session_facts.
Context `{Primitives}.
Variable settings : Settings.

Lemma find_snoc {A} (f : A → bool) l x :
  find f l = None → find f (l ++ [x]) = if f x then Some x else None.
Proof.
  induction l as [|y l IH]; simpl; [done|].
  destruct (f y); [done|]. apply IH.
Qed.

Lemma find_has_id_NoDup us u :
  NoDup (User.id <$> us) → u ∈ us → find (has_id (User.id u)) us = Some u.
Proof.
  induction us as [|x us IH]; intros Hnodup Hin.
  - by apply elem_of_nil in Hin.
  - rewrite fmap_cons in Hnodup. apply NoDup_cons in Hnodup as [Hx Hnodup].
    simpl. unfold has_id at 1. case_bool_decide as Hid.
    + apply elem_of_cons in Hin as [->|Hin]; [done|].
      destruct Hx. rewrite Hid. by apply list_elem_of_fmap_2.
    + apply elem_of_cons in Hin as [->|Hin]; [done|]. by apply IH.
Qed.

Lemma update_first_ids cond f us :
  (∀ u, User.id (f u) = User.id u) →
  User.id <$> update_first cond f us = User.id <$> us.
Proof.
  intros Hf. induction us as [|x us IH]; [done|].
  cbn [update_first]. destruct (cond x); rewrite !fmap_cons; [by rewrite Hf|].
  by rewrite IH.
Qed.

Lemma update_first_elem cond f us u :
  find cond us = Some u → f u ∈ update_first cond f us.
Proof.
  induction us as [|x us IH]; simpl; [done|].
  destruct (cond x).
  - intros [= ->]. apply elem_of_cons. by left.
  - intros Hfind. apply elem_of_cons. right. by apply IH.
Qed.

Lemma find_elem {A} (f : A → bool) l x : find f l = Some x → x ∈ l.
Proof. intros Hfind. apply find_some in Hfind as [Hin _]. by apply list_elem_of_In. Qed.

(** What a successful [login] returns, and the state it leaves. *)
Lemma login_Ok login_data w tokens w1 :
  login settings login_data w = (Ok tokens, w1) →
  ∃ user,
    find (has_email (LoginRequest.email login_data)) (users w) = Some user
    ∧ User.is_active user = true
    ∧ verify_password (LoginRequest.password login_data)
        (User.hashed_password user) = Ok true
    ∧ tokens = pair_at settings (uuid_str (User.id user)) (User.email user)
                 (tick w)
    ∧ users w1
      = update_first (has_email (LoginRequest.email login_data))
          (User.set_last_login (Some (now w))) (users w).
Proof.
  rewrite login_run. intros Hrun.
  destruct (find _ (users w)) as [user|] eqn:Hfind; [|done].
  destruct (verify_password _ _) as [[|]|e] eqn:Hverify; try done.
  destruct (User.is_active user) eqn:Hactive; [|done].
  rewrite create_token_pair_run in Hrun. injection Hrun as <- <-.
  by exists user.
Qed.

(** The access token [login] returns resolves, until it expires, to the row
    of the address that logged in, as [login] left it: with the reading of
    the clock at the login in [last_login].  [GET /me] with that token
    answers with that address and that reading.  Stored identifiers are
    taken to be distinct and to print to a string that parses back. *)
Theorem login_then_get_current_user (login_data : LoginRequest.t)
    (w w1 w2 : world) (tokens : Token.t) :
  NoDup (User.id <$> users w) →
  Forall (λ u, uuid_parse (uuid_str (User.id u)) = Some (User.id u))
    (users w) →
  login settings login_data w = (Ok tokens, w1) →
  users w2 = users w1 →
  now w2 ≤ now (tick w) + 60 * ACCESS_TOKEN_EXPIRE_MINUTES settings →
  ∃ user me,
    find (has_email (LoginRequest.email login_data)) (users w) = Some user
    ∧ get_current_user settings (Token.access_token tokens) w2
      = (Ok (User.set_last_login (Some (now w)) user), tick w2)
    ∧ get_current_user_info settings (Token.access_token tokens) w2
      = (Ok me, tick w2)
    ∧ UserResponse.id me = User.id user
    ∧ UserResponse.email me = LoginRequest.email login_data
    ∧ UserResponse.last_login me = Some (now w).
Proof.
  intros Hnodup Hparse Hlogin Husers Hfresh.
  apply login_Ok in Hlogin as (user & Hfind & Hactive & _ & -> & Hw1).
  set (user' := User.set_last_login (Some (now w)) user).
  assert (get_current_user settings
            (Token.access_token
               (pair_at settings (uuid_str (User.id user)) (User.email user)
                  (tick w))) w2
          = (Ok user', tick w2)) as Hresolve.
  { unfold pair_at, Token.access_token.
    erewrite get_current_user_run; cycle 1.
    - apply decode_token_encode with
        (exp := now (tick w) + 60 * ACCESS_TOKEN_EXPIRE_MINUTES settings);
        [|done].
      by rewrite lookup_insert_ne, lookup_insert_ne, lookup_insert_eq by done.
    - unfold dict_get. by rewrite lookup_insert_eq.
    - unfold dict_get.
      rewrite !lookup_insert_ne, lookup_singleton_eq by done. simpl.
      rewrite List.Forall_forall in Hparse.
      rewrite (Hparse user) by (apply find_some in Hfind; tauto). simpl.
      change (λ u, bool_decide (User.id u = User.id user))
        with (has_id (User.id user)).
      rewrite Husers, Hw1.
      rewrite (find_has_id_NoDup _ user').
      + simpl. by rewrite Hactive.
      + by rewrite update_first_ids.
      + by apply update_first_elem. }
  exists user, (UserResponse.from_user user').
  split_and!; try done.
  - unfold get_current_user_info, bind. by rewrite Hresolve.
  - simpl. apply find_some in Hfind as [_ Hemail].
    by apply bool_decide_eq_true in Hemail.
Qed.

(** [login] writes [last_login] and nothing else that identifies or
    authenticates a user: whatever the request and its outcome, the table
    afterwards has the same rows in the same order as far as identifier,
    e-mail address, password hash and the active flag go. *)
Theorem login_keeps_credentials (login_data : LoginRequest.t) (w : world) :
  credentials <$> users (login settings login_data w).2
  = credentials <$> users w.
Proof.
  rewrite login_run.
  destruct (find _ (users w)) as [user|]; [|done].
  destruct (verify_password _ _) as [[|]|e]; try done.
  destruct (User.is_active user); [|done].
  rewrite create_token_pair_run. cbn [snd tick set_users users].
  generalize (users w). intros us.
  induction us as [|x us IH]; [done|].
  cbn [update_first]. destruct (has_email _ x); rewrite !fmap_cons; [done|].
  by rewrite IH.
Qed.

Lemma refresh_token_users tok w :
  users (refresh_token settings tok w).2 = users w.
Proof.
  rewrite refresh_token_run.
  destruct (decode_token settings tok w) as [[claims | e] w'] eqn:Hdecode;
    pose proof (decode_token_users _ _ _ _ _ Hdecode) as Husers; [|done].
  case_bool_decide; [|done].
  destruct (find _ (users w')) as [user|]; [|done].
  destruct (User.is_active user); [|done].
  by rewrite create_token_pair_run.
Qed.

(** [refresh_token] keeps no record of the tokens it has exchanged: it leaves
    the user table as it was whatever it answers, and a refresh token that
    was exchanged once is exchanged again, for tokens of the same user, as
    long as it has not expired. *)
Theorem refresh_token_reusable (tok : jwt.token) (w w1 w2 : world)
    (tokens : Token.t) :
  refresh_token settings tok w = (Ok tokens, w1) →
  users w2 = users w1 →
  jwt.expired tok (now w2) = false →
  users w1 = users w
  ∧ ∃ tokens' w3,
      refresh_token settings tok w2 = (Ok tokens', w3)
      ∧ users w3 = users w
      ∧ jwt.claims_of (Token.access_token tokens') !! "sub"
        = jwt.claims_of (Token.access_token tokens) !! "sub"
      ∧ jwt.claims_of (Token.access_token tokens') !! "email"
        = jwt.claims_of (Token.access_token tokens) !! "email"
      ∧ jwt.claims_of (Token.refresh_token tokens') !! "sub"
        = jwt.claims_of (Token.refresh_token tokens) !! "sub".
Proof.
  intros Hrun Husers Hfresh.
  pose proof (refresh_token_users tok w) as Hframe.
  rewrite Hrun in Hframe. simpl in Hframe. split; [done|].
  rewrite refresh_token_run in Hrun.
  destruct (decode_token settings tok w) as [[claims | e] w'] eqn:Hdecode;
    [|done].
  pose proof (decode_token_users _ _ _ _ _ Hdecode) as Hw'.
  pose proof (decode_token_again _ _ _ _ _ _ Hdecode Hfresh) as Hagain.
  destruct (decode_token settings tok w2) as [r w2'] eqn:Hdecode2.
  simpl in Hagain. injection Hagain as ->.
  pose proof (decode_token_users _ _ _ _ _ Hdecode2) as Hw2'.
  rewrite refresh_token_run, Hdecode2.
  case_bool_decide; [|done].
  rewrite Hw2', Husers, Hframe, <- Hw'.
  destruct (find _ (users w')) as [user|]; [|done].
  destruct (User.is_active user); [|done].
  rewrite create_token_pair_run in Hrun |- *.
  injection Hrun as <- <-.
  eexists _, _. split; [done|]. split; [|done].
  cbn [users tick]. by rewrite Hw2', Husers, Hframe.
Qed.

Lemma find_ext_elem {A} (f g : A → bool) (l : list A) :
  (∀ x, x ∈ l → f x = g x) → find f l = find g l.
Proof.
  induction l as [|x l IH]; intros Hfg; [done|]. simpl.
  rewrite (Hfg x) by (apply elem_of_cons; by left).
  rewrite IH; [done|]. intros y Hy. apply Hfg, elem_of_cons. by right.
Qed.

(** The refresh token [login] returns can be exchanged, until it expires,
    for a new pair of tokens of the same user.  Stored identifiers are taken
    to be distinct, and the identifier column to compare equal to the
    printed form of an identifier exactly for that identifier. *)
Theorem login_then_refresh_token (login_data : LoginRequest.t)
    (w w1 w2 : world) (tokens : Token.t) :
  NoDup (User.id <$> users w) →
  (∀ a b, a ∈ User.id <$> users w → b ∈ User.id <$> users w →
     id_column_eq a (PStr (uuid_str b)) = bool_decide (a = b)) →
  login settings login_data w = (Ok tokens, w1) →
  users w2 = users w1 →
  now w2 ≤ now (tick (tick (tick w)))
           + 86400 * REFRESH_TOKEN_EXPIRE_DAYS settings →
  ∃ tokens' w3,
    refresh_token settings (Token.refresh_token tokens) w2 = (Ok tokens', w3)
    ∧ users w3 = users w1
    ∧ jwt.claims_of (Token.access_token tokens') !! "sub"
      = jwt.claims_of (Token.access_token tokens) !! "sub"
    ∧ jwt.claims_of (Token.access_token tokens') !! "email"
      = Some (PStr (LoginRequest.email login_data))
    ∧ jwt.claims_of (Token.refresh_token tokens') !! "sub"
      = jwt.claims_of (Token.refresh_token tokens) !! "sub".
Proof.
  intros Hnodup Hcolumn Hlogin Husers Hfresh.
  apply login_Ok in Hlogin as (user & Hfind & Hactive & _ & -> & Hw1).
  set (user' := User.set_last_login (Some (now w)) user).
  assert (User.email user = LoginRequest.email login_data) as Hemail.
  { apply find_some in Hfind as [_ Hcond].
    by apply bool_decide_eq_true in Hcond. }
  assert (User.id <$> users w2 = User.id <$> users w) as Hids.
  { by rewrite Husers, Hw1, update_first_ids. }
  assert (find (λ u, id_column_eq (User.id u)
                       (PStr (uuid_str (User.id user)))) (users w2)
          = Some user') as Hrow.
  { rewrite (find_ext_elem _ (has_id (User.id user))).
    - rewrite Husers, Hw1. apply (find_has_id_NoDup _ user').
      + by rewrite update_first_ids.
      + by apply update_first_elem.
    - intros u Hu. apply Hcolumn.
      + rewrite <- Hids. by apply list_elem_of_fmap_2.
      + apply list_elem_of_fmap_2. by apply find_elem in Hfind. }
  rewrite refresh_token_run. unfold pair_at, Token.refresh_token.
  erewrite decode_token_encode; cycle 1.
  - by rewrite lookup_insert_ne, lookup_insert_ne, lookup_insert_eq by done.
  - done.
  - match goal with
    | |- context [dict_get ?claims "type"] =>
      assert (dict_get claims "type" = PStr "refresh") as ->
        by (unfold dict_get; by rewrite lookup_insert_eq);
      assert (dict_get claims "sub" = PStr (uuid_str (User.id user))) as ->
        by (unfold dict_get;
            by rewrite !lookup_insert_ne, lookup_singleton_eq by done)
    end.
    rewrite bool_decide_eq_true_2 by done.
    cbn [users tick]. rewrite Hrow.
    change (User.is_active user') with (User.is_active user).
    change (User.id user') with (User.id user).
    change (User.email user') with (User.email user).
    rewrite Hactive, create_token_pair_run.
    eexists _, _. split; [reflexivity|].
    unfold pair_at.
    cbn [Token.access_token Token.refresh_token jwt.encode jwt.claims_of
         jwt.payload users tick User.id User.email User.set_last_login].
    split_and!; [done| | |].
    + by rewrite !lookup_insert_ne, !lookup_singleton_eq by done.
    + rewrite !lookup_insert_ne, lookup_insert_eq by done.
      by rewrite Hemail.
    + by rewrite !lookup_insert_ne, !lookup_singleton_eq by done.
Qed.

(** [register] keeps the addresses of the user table pairwise distinct, and
    never changes or removes a row: the table afterwards is the table
    before, followed, on success, by the new row alone. *)
Theorem register_keeps_emails_distinct (user_in : UserCreate.t) (w : world) :
  NoDup (User.email <$> users w) →
  NoDup (User.email <$> users (register user_in w).2)
  ∧ (users (register user_in w).2 = users w
     ∨ ∃ user, (register user_in w).1 = Ok user
         ∧ users (register user_in w).2 = users w ++ [user]).
Proof.
  intros Hnodup. rewrite register_run.
  destruct (find _ (users w)) as [u|] eqn:Hfind; [by split; [|left]|].
  destruct (utf8_encode (UserCreate.password user_in)) as [encoded|] eqn:Henc.
  - rewrite (get_password_hash_run _ _ _ Henc). simpl. split.
    + rewrite fmap_app. apply NoDup_app. split_and!; [done| |].
      * intros e He ->%list_elem_of_singleton.
        apply list_elem_of_fmap in He as (u & Heq & Hin).
        apply list_elem_of_In in Hin.
        pose proof (find_none _ _ Hfind u Hin) as Hno.
        by apply bool_decide_eq_false in Hno.
      * apply NoDup_singleton.
    + right. by eexists.
  - rewrite (get_password_hash_raises _ _ Henc). by split; [|left].
Qed.

(** Registration followed by login: the address and password that
    [register] accepted log in, whatever else is stored, and the tokens are
    issued for the identifier the new row received. *)
Theorem register_then_login (user_in : UserCreate.t) (w w1 : world)
    (user : User.t) :
  register user_in w = (Ok user, w1) →
  ∃ tokens w2,
    login settings
      (LoginRequest.mk (UserCreate.email user_in)
         (UserCreate.password user_in)) w1
    = (Ok tokens, w2)
    ∧ jwt.claims_of (Token.access_token tokens) !! "sub"
      = Some (PStr (uuid_str (User.id user)))
    ∧ jwt.claims_of (Token.access_token tokens) !! "email"
      = Some (PStr (UserCreate.email user_in))
    ∧ jwt.claims_of (Token.refresh_token tokens) !! "sub"
      = Some (PStr (uuid_str (User.id user))).
Proof.
  rewrite register_run. intros Hrun.
  destruct (find _ (users w)) as [u|] eqn:Hfind; [done|].
  destruct (utf8_encode (UserCreate.password user_in)) as [encoded|] eqn:Henc.
  - rewrite (get_password_hash_run _ _ _ Henc) in Hrun.
    injection Hrun as <- <-.
    rewrite login_run. cbn [users LoginRequest.email LoginRequest.password].
    simpl use_entropy. cbn [users].
    rewrite (find_snoc _ _ _ Hfind).
    unfold has_email at 1. cbn [User.email].
    rewrite bool_decide_eq_true_2 by done.
    cbn [User.hashed_password User.is_active User.id User.email].
    rewrite (verify_password_hash_with _ _ _ (next_entropy_length _ _) Henc).
    rewrite create_token_pair_run. eexists _, _. split; [reflexivity|].
    unfold pair_at.
    cbn [Token.access_token Token.refresh_token jwt.encode jwt.claims_of
         jwt.payload].
    split_and!.
    + by rewrite !lookup_insert_ne, lookup_singleton_eq by done.
    + by rewrite !lookup_insert_ne, lookup_insert_eq by done.
    + by rewrite !lookup_insert_ne, lookup_singleton_eq by done.
  - by rewrite (get_password_hash_raises _ _ Henc) in Hrun.
Qed.
End session_facts.

(** ** The list settings *)

Section config_facts.
Variable char_isspace : Z → bool.

Local Abbreviation strip := (str_strip char_isspace).
Local Abbreviation clean_item := (clean_item char_isspace).

Lemma split_on_nonempty d s : bcrypt.split_on d s ≠ [].
Proof.
  destruct s as [|c s]; simpl; [done|].
  destruct (c =? d); [done|]. by destruct (bcrypt.split_on d s).
Qed.

Lemma split_on_pieces d s : Forall (λ p, d ∉ p) (bcrypt.split_on d s).
Proof.
  induction s as [|c s IH]; simpl.
  - repeat constructor. apply not_elem_of_nil.
  - destruct (Z.eqb_spec c d) as [->|Hne].
    + constructor; [apply not_elem_of_nil|done].
    + pose proof (split_on_nonempty d s) as Hpieces.
      destruct (bcrypt.split_on d s) as [|h t]; [done|].
      apply Forall_cons in IH as [Hh Ht]. constructor; [|done].
      intros [?|?]%elem_of_cons; [congruence|done].
Qed.

Lemma split_on_snoc d x rest :
  d ∉ x → bcrypt.split_on d (x ++ d :: rest) = x :: bcrypt.split_on d rest.
Proof.
  induction x as [|c x IH]; intros Hx; simpl.
  - by rewrite Z.eqb_refl.
  - apply not_elem_of_cons in Hx as [Hc Hx].
    destruct (Z.eqb_spec c d) as [->|_]; [done|]. by rewrite IH.
Qed.

Lemma split_on_join d items :
  items ≠ [] → Forall (λ x, d ∉ x) items →
  bcrypt.split_on d (str_join d items) = items.
Proof.
  intros Hne Hitems. induction Hitems as [|x items Hx Hitems IH]; [done|].
  destruct items as [|y items].
  - simpl. rewrite split_on_absent; [done|].
    apply List.Forall_forall. intros c Hc ->. by apply Hx, list_elem_of_In.
  - change (str_join d (x :: y :: items))
      with (x ++ d :: str_join d (y :: items)).
    by rewrite split_on_snoc, IH.
Qed.

Lemma lstrip_nonspace c s :
  char_isspace c = false → str_lstrip char_isspace (c :: s) = c :: s.
Proof. intros Hc. simpl. by rewrite Hc. Qed.

Lemma rstrip_nonspace c s :
  char_isspace c = false →
  str_rstrip char_isspace (c :: s) = c :: str_rstrip char_isspace s.
Proof.
  intros Hc. simpl. rewrite Hc. by destruct (str_rstrip char_isspace s).
Qed.

Lemma lstrip_head s :
  str_lstrip char_isspace s = []
  ∨ ∃ c t, str_lstrip char_isspace s = c :: t ∧ char_isspace c = false.
Proof.
  induction s as [|c s IH]; simpl; [by left|].
  destruct (char_isspace c) eqn:Hc; [done|]. right. by exists c, s.
Qed.

Lemma rstrip_idem s :
  str_rstrip char_isspace (str_rstrip char_isspace s)
  = str_rstrip char_isspace s.
Proof.
  induction s as [|c s IH]; simpl; [done|].
  destruct (str_rstrip char_isspace s) as [|c' s'] eqn:Hs.
  - destruct (char_isspace c) eqn:Hc; simpl; [done|]. by rewrite Hc.
  - simpl in *. by rewrite IH.
Qed.

Lemma strip_idem s : strip (strip s) = strip s.
Proof.
  unfold str_strip.
  destruct (lstrip_head s) as [->|(c & t & -> & Hc)]; [done|].
  by rewrite (rstrip_nonspace _ _ Hc), (lstrip_nonspace _ _ Hc),
    (rstrip_nonspace _ _ Hc), rstrip_idem.
Qed.

Lemma lstrip_elem c s : c ∈ str_lstrip char_isspace s → c ∈ s.
Proof.
  induction s as [|x s IH]; simpl; [done|].
  destruct (char_isspace x); [|done]. intros Hc. apply elem_of_cons. auto.
Qed.

Lemma rstrip_elem c s : c ∈ str_rstrip char_isspace s → c ∈ s.
Proof.
  revert c. induction s as [|x s IH]; intros c; simpl; [done|].
  destruct (str_rstrip char_isspace s) as [|y r].
  - destruct (char_isspace x); [by intros ?%elem_of_nil|].
    intros ->%list_elem_of_singleton. apply elem_of_cons. by left.
  - intros [->|Hc]%elem_of_cons; apply elem_of_cons; [by left|].
    right. by apply IH.
Qed.

Lemma strip_elem c s : c ∈ strip s → c ∈ s.
Proof. intros Hc. by apply lstrip_elem, rstrip_elem. Qed.

Lemma lstrip_blank s :
  str_lstrip char_isspace s = [] ↔ Forall (λ c, char_isspace c = true) s.
Proof.
  induction s as [|c s IH]; simpl; [done|].
  destruct (char_isspace c) eqn:Hc.
  - rewrite IH. split; [by constructor|]. by intros [_ ?]%Forall_cons.
  - split; [done|]. intros [? _]%Forall_cons. congruence.
Qed.

Lemma rstrip_nil_nonspace c s :
  char_isspace c = false → str_rstrip char_isspace (c :: s) ≠ [].
Proof. intros Hc. by rewrite rstrip_nonspace. Qed.

Lemma strip_blank s : strip s = [] ↔ Forall (λ c, char_isspace c = true) s.
Proof.
  rewrite <- lstrip_blank. unfold str_strip.
  destruct (lstrip_head s) as [->|(c & t & -> & Hc)]; [done|].
  split; [|done]. intros Hnil. by destruct (rstrip_nil_nonspace c t).
Qed.

Lemma comma_separated_clean s : Forall clean_item (comma_separated char_isspace s).
Proof.
  unfold comma_separated, str_split.
  pose proof (split_on_pieces 44 s) as Hpieces.
  induction Hpieces as [|p ps Hp _ IH]; [constructor|].
  cbn [List.filter].
  destruct (strip p) as [|c t] eqn:Hstrip; cbn [bcrypt.nonempty]; [done|].
  rewrite fmap_cons. constructor; [|done].
  rewrite Hstrip. split_and!; [done| |by rewrite <- Hstrip, strip_idem].
  intros Hin. apply Hp, strip_elem. by rewrite Hstrip.
Qed.

Lemma comma_separated_join items :
  items ≠ [] → Forall clean_item items →
  comma_separated char_isspace (str_join 44 items) = items.
Proof.
  intros Hne Hitems. unfold comma_separated, str_split.
  rewrite split_on_join; [|done|by eapply Forall_impl; [done|intros ? (_ & ? & _)]].
  clear Hne. induction Hitems as [|x items (Hx & _ & Hstrip) _ IH]; [done|].
  cbn [List.filter]. rewrite Hstrip. destruct x as [|c x]; [done|].
  cbn [bcrypt.nonempty]. by rewrite fmap_cons, Hstrip, IH.
Qed.

Lemma str_join_nonempty x items : x ≠ [] → str_join 44 (x :: items) ≠ [].
Proof. destruct x; [done|]. by destruct items. Qed.

Lemma comma_separated_nil s :
  comma_separated char_isspace s = []
  ↔ Forall (λ c, c = 44 ∨ char_isspace c = true) s.
Proof.
  unfold comma_separated, str_split.
  transitivity (Forall (λ p, strip p = []) (bcrypt.split_on 44 s)).
  - generalize (bcrypt.split_on 44 s). intros ps.
    induction ps as [|p ps IH]; [done|].
    cbn [List.filter]. destruct (strip p) eqn:Hp; cbn [bcrypt.nonempty].
    + rewrite IH. split; [by constructor|]. by intros [_ ?]%Forall_cons.
    + rewrite fmap_cons. split; [done|]. intros [? _]%Forall_cons. congruence.
  - induction s as [|c s IH]; simpl.
    + split; [done|]. by repeat constructor.
    + destruct (Z.eqb_spec c 44) as [->|Hne].
      * split; intros [H1 H2]%Forall_cons; constructor; auto; by apply IH.
      * pose proof (split_on_nonempty 44 s) as Hpieces.
        destruct (bcrypt.split_on 44 s) as [|h t]; [done|].
        split.
        -- intros [Hh Ht]%Forall_cons. apply strip_blank in Hh.
           apply Forall_cons in Hh as [Hc Hh]. constructor; [by right|].
           apply IH. constructor; [by apply strip_blank|done].
        -- intros [[?|Hc] Hs]%Forall_cons; [done|].
           apply IH in Hs. apply Forall_cons in Hs as [Hh Ht].
           constructor; [|done]. apply strip_blank. constructor; [done|].
           by apply strip_blank.
Qed.

(** [ALLOWED_HOSTS], [CORS_ALLOW_METHODS] and [CORS_ALLOW_HEADERS] given as
    text: the three validators agree; every item they return is clean (not
    empty, without a comma, without white space at its ends); a list of
    items written back with commas is read as the same list; and text that
    is not empty but holds nothing except commas and white space is read as
    the empty list, not as the default [["*"]] that the empty text gets. *)
Theorem parse_allowed_hosts_text (s : text) :
  s ≠ [] →
  let hosts := parse_allowed_hosts char_isspace (RawStr s) in
  parse_cors_methods char_isspace (RawStr s) = hosts
  ∧ parse_cors_headers char_isspace (RawStr s) = hosts
  ∧ Forall clean_item hosts
  ∧ (hosts ≠ [] →
       parse_allowed_hosts char_isspace (RawStr (str_join 44 hosts)) = hosts)
  ∧ (hosts = [] ↔ Forall (λ c, c = 44 ∨ char_isspace c = true) s)
  ∧ parse_allowed_hosts char_isspace (RawStr []) = wildcard.
Proof.
  intros Hs hosts. subst hosts. destruct s as [|c s]; [done|].
  cbn [parse_allowed_hosts parse_cors_methods parse_cors_headers].
  split_and!; try done.
  - apply comma_separated_clean.
  - intros Hne.
    pose proof (comma_separated_clean (c :: s)) as Hclean.
    destruct (comma_separated char_isspace (c :: s)) as [|x items] eqn:Hitems;
      [done|].
    pose proof (str_join_nonempty x items) as Hjoin.
    destruct (str_join 44 (x :: items)) as [|c' s'] eqn:Hj.
    + destruct Hjoin; [|done]. by apply Forall_cons in Hclean as [[? _] _].
    + rewrite <- Hj. by apply comma_separated_join.
  - apply comma_separated_nil.
Qed.

(** [ALLOWED_ORIGINS] and [ALLOWED_FILE_EXTENSIONS] given as text: text that
    is empty or all white space is read as the default list; any other text
    is read item by item, to clean items, so that text holding only commas
    and white space, a comma among them, is read as the empty list. *)
Theorem parse_cors_origins_text (s : text) :
  let blank := Forall (λ c, char_isspace c = true) s in
  let origins := parse_cors_origins char_isspace (RawStr s) in
  let extensions := parse_file_extensions char_isspace (RawStr s) in
  (blank → origins = default_origins ∧ extensions = default_extensions)
  ∧ (¬ blank →
       extensions = origins
       ∧ Forall clean_item origins
       ∧ (origins = [] ↔ Forall (λ c, c = 44 ∨ char_isspace c = true) s)
       ∧ (origins ≠ [] →
            parse_cors_origins char_isspace (RawStr (str_join 44 origins))
            = origins)).
Proof.
  intros blank origins extensions. subst blank origins extensions.
  unfold parse_cors_origins, parse_file_extensions.
  destruct (decide (Forall (λ c, char_isspace c = true) s)) as [Hblank|Hblank].
  - split; [intros _|done].
    rewrite (bool_decide_eq_true_2 (strip s = [])) by by apply strip_blank.
    by rewrite orb_true_r.
  - split; [done|intros _].
    rewrite (bool_decide_eq_false_2 (strip s = []))
      by by rewrite strip_blank.
    destruct s as [|c s]; [by destruct Hblank|]. cbn [bcrypt.nonempty negb orb].
    split_and!; [done|apply comma_separated_clean|apply comma_separated_nil|].
    intros Hne.
    pose proof (comma_separated_clean (c :: s)) as Hclean.
    destruct (comma_separated char_isspace (c :: s)) as [|x items] eqn:Hitems;
      [done|].
    assert (strip (str_join 44 (x :: items)) ≠ []) as Hjoined.
    { apply Forall_cons in Hclean as [(Hx & _ & Hstrip) _].
      rewrite strip_blank. intros Hall. destruct Hx.
      rewrite <- Hstrip. apply strip_blank.
      apply List.Forall_forall. intros a Ha.
      rewrite List.Forall_forall in Hall. apply Hall.
      destruct items; [done|]. apply in_or_app. by left. }
    rewrite (bool_decide_eq_false_2 _ Hjoined).
    destruct (str_join 44 (x :: items)) as [|c' s'] eqn:Hj; [done|].
    cbn [bcrypt.nonempty negb orb]. rewrite <- Hj.
    by apply comma_separated_join.
Qed.
End config_facts.

(** ** The start-up check *)

Section config_check_facts.
Variable str_lower : string → string.

(** In production, with every other check passed, [validate_settings]
    raises because of [ALLOWED_ORIGINS] exactly when one of the origins is
    the very text "localhost": origins given as URLs pass, and so do the
    built-in origins [http://localhost:3000] and [http://localhost:5173]. *)
Theorem validate_settings_localhost (s : config.t) :
  is_production str_lower s = true →
  config.DEBUG s = false →
  opt_truthy (config.SENTRY_DSN s) = true →
  (32 ≤ String.length (SECRET_KEY (config.security s)))%nat →
  str_truthy (config.DATABASE_URL s) = true →
  str_truthy (config.BLACKBOX_API_KEY s) = true →
  (config.EMAIL_ENABLED s = true →
     opt_truthy (config.SENDGRID_API_KEY s) = true) →
  (config.SLACK_ENABLED s = true →
     opt_truthy (config.SLACK_CLIENT_ID s) = true
     ∧ opt_truthy (config.SLACK_CLIENT_SECRET s) = true
     ∧ opt_truthy (config.SLACK_SIGNING_SECRET s) = true) →
  (validate_settings str_lower s = Ok ()
     ↔ bytes_of_string "localhost" ∉ config.ALLOWED_ORIGINS s)
  ∧ (bytes_of_string "localhost" ∈ config.ALLOWED_ORIGINS s →
       validate_settings str_lower s
       = Raise (ValueError
           ("Configuration validation failed:" +:+ newline
              +:+ "  - localhost should not be in ALLOWED_ORIGINS in production")))
  ∧ (config.ALLOWED_ORIGINS s = default_origins →
       validate_settings str_lower s = Ok ()).
Proof.
  intros Hprod Hdebug Hsentry Hkey Hdb Hai Hemail Hslack.
  assert (validation_errors str_lower s
          = if bool_decide (bytes_of_string "localhost"
                              ∈ config.ALLOWED_ORIGINS s)
            then ["localhost should not be in ALLOWED_ORIGINS in production"%string]
            else []) as Herrors.
  { unfold validation_errors.
    cbn [forallb]. rewrite Hprod, Hdebug, Hsentry, Hdb, Hai.
    destruct (config.EMAIL_ENABLED s); [rewrite Hemail by done|].
    all: destruct (config.SLACK_ENABLED s);
      [destruct Hslack as (-> & -> & ->); [done|]|].
    all: destruct (SECRET_KEY (config.security s)) as [|a k] eqn:Hk;
      [simpl in Hkey; lia|].
    all: cbn [str_truthy negb orb andb forallb].
    all: destruct (Nat.ltb_spec (String.length (String a k)) 32) as [?|_];
      [lia|].
    all: by case_bool_decide. }
  unfold validate_settings. rewrite Herrors. split_and!.
  - case_bool_decide; [|done]. split; [done|]. by intros [].
  - intros Hin. by rewrite bool_decide_eq_true_2.
  - intros ->. rewrite bool_decide_eq_false_2; [done|].
    apply (bool_decide_unpack _). by vm_compute.
Qed.
End config_check_facts.


(** ** Notifications *)

Section notification_facts.
Implicit Types (n : Notification.t) (ns : list Notification.t).

Lemma find_update_row {A} (cond : A → bool) f (rows : list A) r :
  find cond rows = Some r → cond (f r) = true →
  find cond (update_row cond f rows) = Some (f r).
Proof.
  intros Hfind Hf. induction rows as [|x rows IH]; simpl in *; [done|].
  destruct (cond x) eqn:Hx.
  - injection Hfind as ->. simpl. by rewrite Hf.
  - simpl. rewrite Hx. by apply IH.
Qed.

Lemma unread_of_set_read user now n :
  unread_of user (Notification.set_read now n) = false.
Proof. unfold unread_of. simpl. apply andb_false_r. Qed.

Lemma unread_of_other user other n :
  User.id other ≠ User.id user →
  Notification.user_id n = User.id user → unread_of other n = false.
Proof.
  intros Hne Hn. unfold unread_of.
  rewrite bool_decide_eq_false_2; [done|]. congruence.
Qed.

Lemma filter_length_ext {A} (f : A → bool) (g : A → A) (l : list A) :
  (∀ x, f (g x) = f x) →
  length (List.filter f (g <$> l)) = length (List.filter f l).
Proof.
  intros Hfg. induction l as [|x l IH]; [done|].
  rewrite fmap_cons. cbn [List.filter]. rewrite Hfg.
  destruct (f x); simpl; by rewrite IH.
Qed.

Lemma filter_none {A} (f : A → bool) (l : list A) :
  (∀ x, x ∈ l → f x = false) → List.filter f l = [].
Proof.
  induction l as [|x l IH]; intros Hl; [done|]. cbn [List.filter].
  rewrite (Hl x) by (apply elem_of_cons; by left).
  apply IH. intros y Hy. apply Hl, elem_of_cons. by right.
Qed.

(** Marking one notification read takes one off the unread count of its
    owner and leaves the count of everybody else. *)
Lemma update_row_unread id user now ns n :
  find (notification_of id user) ns = Some n →
  Notification.is_read n = false →
  let ns' :=
    update_row (notification_of id user)
      (λ _, Notification.set_read now n) ns in
  S (length (List.filter (unread_of user) ns'))
  = length (List.filter (unread_of user) ns)
  ∧ ∀ other, User.id other ≠ User.id user →
      length (List.filter (unread_of other) ns')
      = length (List.filter (unread_of other) ns).
Proof.
  intros Hfind Hunread. induction ns as [|x ns IH]; [done|].
  cbn [find update_row] in *.
  destruct (notification_of id user x) eqn:Hx.
  - injection Hfind as ->.
    apply andb_true_iff in Hx as [_ Howner%bool_decide_eq_true].
    cbn [List.filter]. rewrite unread_of_set_read. split.
    + unfold unread_of at 2.
      by rewrite !bool_decide_eq_true_2.
    + intros other Hne. rewrite unread_of_set_read.
      by rewrite (unread_of_other user other n).
  - destruct (IH Hfind) as [IH1 IH2]. cbn [List.filter]. split.
    + destruct (unread_of user x); simpl; by rewrite <- IH1.
    + intros other Hne.
      destruct (unread_of other x); simpl; by rewrite IH2.
Qed.

(** [mark_notification_read] answers 404 exactly when the user owns no
    notification of that identifier, be it missing or someone else's, and
    then reads no clock.  Otherwise it returns the notification, read: a
    notification that was read already is returned as stored and nothing is
    written; one that was not gets the reading of the clock as [read_at],
    the unread count of its owner goes down by one, and the counts of the
    other users stay.  Asking again gives the same answer and writes
    nothing, so [read_at] keeps the time of the first call. *)
Theorem mark_notification_read_once (notification_id : UUID)
    (current_user : User.t) (notifications : list Notification.t)
    (w : world) :
  let run := mark_notification_read notification_id current_user in
  (is_ok (run notifications w).1 = false
     ↔ ∀ n, n ∈ notifications → Notification.id n = notification_id →
         Notification.user_id n ≠ User.id current_user)
  ∧ (is_ok (run notifications w).1 = false →
       run notifications w = (Raise (HTTPError notification_not_found), w))
  ∧ ∀ n' ns' w',
      run notifications w = (Ok (n', ns'), w') →
      Notification.is_read n' = true
      ∧ Notification.id n' = notification_id
      ∧ Notification.user_id n' = User.id current_user
      ∧ run ns' w' = (Ok (n', ns'), w')
      ∧ ∃ n, find (notification_of notification_id current_user)
               notifications = Some n
          ∧ if Notification.is_read n
            then n' = n ∧ ns' = notifications ∧ w' = w
            else n' = Notification.set_read (now w) n
                 ∧ w' = tick w
                 ∧ (∃ k, get_unread_count current_user ns'
                         = {["unread_count" := PInt k]}
                      ∧ get_unread_count current_user notifications
                        = {["unread_count" := PInt (k + 1)]})
                 ∧ ∀ other, User.id other ≠ User.id current_user →
                     get_unread_count other ns'
                     = get_unread_count other notifications.
Proof.
  intros run. subst run. unfold mark_notification_read.
  destruct (find _ notifications) as [n|] eqn:Hfind.
  - pose proof Hfind as Hn. apply find_some in Hn as [Hin Hn].
    apply list_elem_of_In in Hin.
    apply andb_true_iff in Hn
      as [Hid%bool_decide_eq_true Howner%bool_decide_eq_true].
    destruct (Notification.is_read n) eqn:Hread; cbn [negb].
    + split_and!.
      * split; [done|]. intros Hnone. by destruct (Hnone n).
      * done.
      * intros n' ns' w' [= <- <- <-]. rewrite Hfind, Hread.
        split_and!; try done. exists n. by rewrite Hread.
    + unfold bind, ret. rewrite utcnow_run. split_and!.
      * split; [done|]. intros Hnone. by destruct (Hnone n).
      * done.
      * intros n' ns' w' [= <- <- <-].
        rewrite (find_update_row _ _ _ n Hfind)
          by (unfold notification_of; simpl;
              by rewrite !bool_decide_eq_true_2).
        split_and!; try done. exists n. rewrite Hread.
        destruct (update_row_unread _ _ (now w) _ _ Hfind Hread)
          as [Hmine Hothers].
        split_and!; try done.
        -- eexists. unfold get_unread_count. split; [done|].
           rewrite <- Hmine. do 2 f_equal. lia.
        -- intros other Hne. unfold get_unread_count.
           by rewrite (Hothers other Hne).
  - split_and!; try done. split; [|done]. intros _ n Hin Hid Howner.
    apply list_elem_of_In in Hin.
    pose proof (find_none _ _ Hfind n Hin) as Hno.
    unfold notification_of in Hno.
    by rewrite !bool_decide_eq_true_2 in Hno.
Qed.

(** After [mark_all_notifications_read] the unread count of the user is
    zero.  Every notification that was theirs and unread is read, with the
    one reading of the clock as [read_at]; every other row, a notification
    of someone else or one read earlier, is as it was, so the counts of the
    other users and the earlier [read_at] times stay. *)
Theorem mark_all_notifications_read_clears (current_user : User.t)
    (notifications : list Notification.t) (w : world) :
  ∃ ns',
    mark_all_notifications_read current_user notifications w
    = (Ok ({["message" := PStr "All notifications marked as read"]}, ns'),
       tick w)
    ∧ get_unread_count current_user ns' = {["unread_count" := PInt 0]}
    ∧ (∀ other, User.id other ≠ User.id current_user →
         get_unread_count other ns' = get_unread_count other notifications)
    ∧ ∀ i n, notifications !! i = Some n →
        ns' !! i
        = Some (if unread_of current_user n
                then Notification.set_read (now w) n else n).
Proof.
  eexists. split; [reflexivity|]. split_and!.
  - unfold get_unread_count. rewrite filter_none; [done|].
    intros n [n0 [-> _]]%list_elem_of_fmap.
    destruct (unread_of current_user n0) eqn:Hn0; [|done].
    apply unread_of_set_read.
  - intros other Hne. unfold get_unread_count, update_rows.
    rewrite filter_length_ext; [done|]. intros n.
    destruct (unread_of current_user n) eqn:Hn; [|done].
    apply andb_true_iff in Hn as [Howner%bool_decide_eq_true _].
    by rewrite unread_of_set_read, (unread_of_other current_user other n).
  - intros i n Hi. unfold update_rows. by rewrite list_lookup_fmap, Hi.
Qed.
End notification_facts.

(** ** Projects *)

Section project_facts.

Lemma find_app_snoc {A} (f : A → bool) (l : list A) (x : A) :
  find f (l ++ [x])
  = match find f l with
    | Some y => Some y
    | None => if f x then Some x else None
    end.
Proof.
  induction l as [|y l IH]; simpl; [done|]. by destruct (f y).
Qed.

(** A project that was created is read back by its owner, as created, and
    by nobody else: with the identifier of the new row not in use, the
    project [create_project] returns belongs to the caller and carries the
    name, description and status of the request; [get_project] with its
    identifier returns it to the caller and answers every other user with
    the 404 "Project not found"; and every other identifier resolves as it
    did before. *)
Theorem create_project_then_get (project_in : ProjectCreate.t)
    (current_user : User.t) (projects : list Project.t) (w : world) :
  Forall (λ p, Project.id p ≠ row_ids w (rows_added w)) projects →
  ∃ project w',
    create_project project_in current_user projects w
    = (Ok (project, projects ++ [project]), w')
    ∧ Project.user_id project = User.id current_user
    ∧ (Project.name project, Project.description project,
       Project.status project)
      = (ProjectCreate.name project_in, ProjectCreate.description project_in,
         ProjectCreate.status project_in)
    ∧ get_project (Project.id project) current_user (projects ++ [project])
      = Ok project
    ∧ (∀ other, User.id other ≠ User.id current_user →
         get_project (Project.id project) other (projects ++ [project])
         = Raise (HTTPError project_not_found))
    ∧ ∀ project_id user, project_id ≠ Project.id project →
        get_project project_id user (projects ++ [project])
        = get_project project_id user projects.
Proof.
  intros Hfresh. eexists _, _. split; [reflexivity|].
  assert (∀ user, find (project_of (row_ids w (rows_added w)) user) projects
                  = None) as Hnone.
  { intros user.
    destruct (find _ projects) as [p|] eqn:Hfind; [|done].
    apply find_some in Hfind as [Hp Hcond].
    rewrite List.Forall_forall in Hfresh. apply Hfresh in Hp.
    unfold project_of in Hcond. by rewrite bool_decide_eq_false_2 in Hcond. }
  cbn [Project.id Project.user_id Project.name Project.description
       Project.status].
  split_and!; try done.
  - unfold get_project. rewrite find_app_snoc, Hnone.
    unfold project_of. cbn [Project.id Project.user_id].
    by rewrite !bool_decide_eq_true_2.
  - intros other Hne. unfold get_project. rewrite find_app_snoc, Hnone.
    unfold project_of. cbn [Project.id Project.user_id].
    rewrite (bool_decide_eq_false_2 (User.id current_user = User.id other))
      by congruence.
    by rewrite andb_false_r.
  - intros project_id user Hne. unfold get_project. rewrite find_app_snoc.
    destruct (find _ projects); [done|].
    unfold project_of. cbn [Project.id].
    by rewrite (bool_decide_eq_false_2 (_ = project_id)) by congruence.
Qed.
End project_facts.

(** ** Revisions *)

Section revision_facts.

Lemma first_by_version_desc_spec rows :
  match first_by_version_desc rows with
  | None => rows = []
  | Some best =>
    best ∈ rows
    ∧ ∀ r, r ∈ rows → Revision.version r ≤ Revision.version best
  end.
Proof.
  induction rows as [|x rows IH]; simpl; [done|].
  destruct (first_by_version_desc rows) as [best|].
  - destruct IH as [Hin Hmax].
    destruct (Z.ltb_spec (Revision.version x) (Revision.version best)).
    + split; [apply elem_of_cons; by right|].
      intros r [->|Hr]%elem_of_cons; [lia|by apply Hmax].
    + split; [apply elem_of_cons; by left|].
      intros r [->|Hr]%elem_of_cons; [lia|]. apply Hmax in Hr. lia.
  - subst rows. split; [apply elem_of_cons; by left|].
    intros r ->%list_elem_of_singleton. lia.
Qed.

Lemma filter_revision_of_elem feedback_id revisions r :
  r ∈ List.filter (revision_of feedback_id) revisions
  ↔ r ∈ revisions ∧ Revision.feedback_id r = feedback_id.
Proof.
  rewrite !list_elem_of_In, filter_In. unfold revision_of.
  by rewrite bool_decide_eq_true.
Qed.

(** The version [create_revision] computes is above every version the
    feedback has. *)
Lemma next_version_greater feedback_id revisions r :
  r ∈ revisions → Revision.feedback_id r = feedback_id →
  Revision.version r
  < match first_by_version_desc
            (List.filter (revision_of feedback_id) revisions) with
    | Some last_revision => Revision.version last_revision + 1
    | None => 1
    end.
Proof.
  intros Hr Hfid.
  pose proof (first_by_version_desc_spec
                (List.filter (revision_of feedback_id) revisions)) as Hlast.
  assert (r ∈ List.filter (revision_of feedback_id) revisions) as Hin
    by by apply filter_revision_of_elem.
  destruct (first_by_version_desc _) as [best|].
  - destruct Hlast as [_ Hmax]. pose proof (Hmax r Hin). lia.
  - rewrite Hlast in Hin. by apply elem_of_nil in Hin.
Qed.

(** The version numbers [create_revision] gives: the new revision is
    appended, pending and not approved, for a feedback the caller owns; its
    version is 1 when the feedback has no revision yet and one more than an
    existing version otherwise, and in both cases greater than the version
    of every revision the feedback has.  So the revisions of a feedback keep
    distinct versions. *)
Theorem create_revision_versions (feedback_id : UUID) (notes : option string)
    (file : option UploadFile.t) (current_user : User.t)
    (feedbacks : list Feedback.t) (revisions revisions' : list Revision.t)
    (revision : Revision.t) (w w' : world) :
  create_revision feedback_id notes file current_user feedbacks revisions w
  = (Ok (revision, revisions'), w') →
  let key (r : Revision.t) := (Revision.feedback_id r, Revision.version r) in
  revisions' = revisions ++ [revision]
  ∧ Revision.feedback_id revision = feedback_id
  ∧ Revision.status revision = "pending"%string
  ∧ Revision.approved_at revision = None
  ∧ (∃ feedback, feedback ∈ feedbacks
       ∧ Feedback.id feedback = feedback_id
       ∧ Feedback.user_id feedback = User.id current_user)
  ∧ (∀ r, r ∈ revisions → Revision.feedback_id r = feedback_id →
       Revision.version r < Revision.version revision)
  ∧ ((Revision.version revision = 1
        ∧ ∀ r, r ∈ revisions → Revision.feedback_id r ≠ feedback_id)
     ∨ ∃ r, r ∈ revisions ∧ Revision.feedback_id r = feedback_id
         ∧ Revision.version revision = Revision.version r + 1)
  ∧ (NoDup (key <$> revisions) → NoDup (key <$> revisions')).
Proof.
  intros Hrun key. unfold create_revision in Hrun.
  destruct (find _ feedbacks) as [feedback|] eqn:Hfeedback; [|done].
  injection Hrun as <- <- <-.
  cbn [Revision.feedback_id Revision.status Revision.approved_at
       Revision.version].
  pose proof (first_by_version_desc_spec
                (List.filter (revision_of feedback_id) revisions)) as Hlast.
  pose proof (filter_revision_of_elem feedback_id revisions) as Hfilter.
  pose proof (next_version_greater feedback_id revisions) as Hgreater.
  set (next_version :=
         match first_by_version_desc
                 (List.filter (revision_of feedback_id) revisions) with
         | Some last_revision => Revision.version last_revision + 1
         | None => 1
         end) in *.
  split_and!; try done.
  - apply find_some in Hfeedback as [Hin Hf].
    apply andb_true_iff in Hf
      as [?%bool_decide_eq_true ?%bool_decide_eq_true].
    exists feedback. by rewrite list_elem_of_In.
  - subst next_version. destruct (first_by_version_desc _) as [best|].
    + right. destruct Hlast as [Hin _]. apply Hfilter in Hin as [? ?].
      by exists best.
    + left. split; [done|]. intros r Hr Hfid.
      assert (r ∈ List.filter (revision_of feedback_id) revisions) as Hin
        by by apply Hfilter.
      rewrite Hlast in Hin. by apply elem_of_nil in Hin.
  - intros Hnodup. rewrite fmap_app. apply NoDup_app.
    split_and!; [done| |apply NoDup_singleton].
    intros k [r [-> Hr]]%list_elem_of_fmap Hk%list_elem_of_singleton.
    injection Hk as Hfid Hversion.
    cbn [Revision.feedback_id Revision.version] in *.
    pose proof (Hgreater r Hr Hfid). lia.
Qed.

(** Uploads for one feedback are numbered consecutively: after a revision
    was created for a feedback, the next [create_revision] for the same
    feedback by the same user succeeds, whatever its notes and file, and
    the revision it appends has the next version. *)
Theorem create_revision_consecutive (feedback_id : UUID)
    (notes notes' : option string) (file file' : option UploadFile.t)
    (current_user : User.t) (feedbacks : list Feedback.t)
    (revisions revisions1 : list Revision.t) (revision1 : Revision.t)
    (w w1 : world) :
  create_revision feedback_id notes file current_user feedbacks revisions w
  = (Ok (revision1, revisions1), w1) →
  ∃ revision2 w2,
    create_revision feedback_id notes' file' current_user feedbacks
      revisions1 w1
    = (Ok (revision2, revisions1 ++ [revision2]), w2)
    ∧ Revision.version revision2 = Revision.version revision1 + 1.
Proof.
  intros Hrun.
  pose proof (next_version_greater feedback_id revisions) as Hgreater.
  unfold create_revision in Hrun |- *.
  destruct (find _ feedbacks) as [feedback|]; [|done].
  injection Hrun as <- <- <-.
  set (revision1 := Revision.mk _ _ _ _ _ _ _ _ _ _ _ _) in *.
  assert (Revision.feedback_id revision1 = feedback_id) as Hfid by done.
  change (∀ r, r ∈ revisions → Revision.feedback_id r = feedback_id →
               Revision.version r < Revision.version revision1)
    in Hgreater.
  clearbody revision1.
  eexists _, _. split; [reflexivity|].
  cbn [Revision.version].
  pose proof (first_by_version_desc_spec
                (List.filter (revision_of feedback_id)
                   (revisions ++ [revision1]))) as Hlast.
  destruct (first_by_version_desc _) as [best|].
  - destruct Hlast as [Hbest Hmax].
    apply filter_revision_of_elem in Hbest as [Hbest Hbest_fid].
    apply elem_of_app in Hbest as [Hold | ->%list_elem_of_singleton];
      [|done].
    pose proof (Hgreater best Hold Hbest_fid).
    assert (Revision.version revision1 ≤ Revision.version best); [|lia].
    apply Hmax, filter_revision_of_elem. split; [|done].
    apply elem_of_app. right. by apply list_elem_of_singleton.
  - assert (revision1 ∈ List.filter (revision_of feedback_id)
                          (revisions ++ [revision1])) as Hin.
    { apply filter_revision_of_elem. split; [|done].
      apply elem_of_app. right. by apply list_elem_of_singleton. }
    rewrite Hlast in Hin. by apply elem_of_nil in Hin.
Qed.

(** From feedback to its first revision.  [create_feedback] stores a
    feedback only under a project of the caller, as pending; with an
    identifier that no stored feedback has and no stored revision refers
    to, the caller reads it back with [get_feedback], their first
    [create_revision] for it gets version 1, and every other user is
    answered 404 "Feedback not found" by both. *)
Theorem create_feedback_then_revision (feedback_in : FeedbackCreate.t)
    (notes : option string) (file : option UploadFile.t)
    (current_user : User.t) (projects : list Project.t)
    (feedbacks feedbacks' : list Feedback.t) (revisions : list Revision.t)
    (feedback : Feedback.t) (w w1 : world) :
  Forall (λ f, Feedback.id f ≠ row_ids w (rows_added w)) feedbacks →
  Forall (λ r, Revision.feedback_id r ≠ row_ids w (rows_added w)) revisions →
  create_feedback feedback_in current_user projects feedbacks w
  = (Ok (feedback, feedbacks'), w1) →
  (∃ project, project ∈ projects
     ∧ Project.id project = FeedbackCreate.project_id feedback_in
     ∧ Project.user_id project = User.id current_user)
  ∧ feedbacks' = feedbacks ++ [feedback]
  ∧ Feedback.user_id feedback = User.id current_user
  ∧ Feedback.status feedback = "pending"%string
  ∧ get_feedback (Feedback.id feedback) current_user feedbacks' = Ok feedback
  ∧ (∃ revision w2,
       create_revision (Feedback.id feedback) notes file current_user
         feedbacks' revisions w1
       = (Ok (revision, revisions ++ [revision]), w2)
       ∧ Revision.version revision = 1)
  ∧ ∀ other, User.id other ≠ User.id current_user →
      get_feedback (Feedback.id feedback) other feedbacks'
      = Raise (HTTPError feedback_not_found)
      ∧ create_revision (Feedback.id feedback) notes file other feedbacks'
          revisions w1
        = (Raise (HTTPError feedback_not_found), w1).
Proof.
  intros Hfresh Hunused Hrun. unfold create_feedback in Hrun.
  destruct (find _ projects) as [project|] eqn:Hproject; [|done].
  injection Hrun as <- <- <-.
  cbn [Feedback.id Feedback.user_id Feedback.status].
  set (id := row_ids w (rows_added w)) in *.
  assert (∀ user raw created updated,
            let feedback :=
              Feedback.mk id (User.id current_user)
                (FeedbackCreate.project_id feedback_in) raw None None None
                "pending" created updated in
            find (feedback_of id user) (feedbacks ++ [feedback])
            = if bool_decide (User.id current_user = User.id user)
              then Some feedback else None) as Hfind.
  { intros user raw created updated feedback. rewrite find_app_snoc.
    destruct (find _ feedbacks) as [f|] eqn:Hf.
    - apply find_some in Hf as [Hin Hcond].
      rewrite List.Forall_forall in Hfresh. apply Hfresh in Hin.
      unfold feedback_of in Hcond.
      by rewrite bool_decide_eq_false_2 in Hcond.
    - unfold feedback_of. cbn [feedback Feedback.id Feedback.user_id].
      by rewrite bool_decide_eq_true_2. }
  cbv zeta in Hfind.
  assert (List.filter (revision_of id) revisions = []) as Hnone.
  { apply filter_none. intros r Hr.
    rewrite List.Forall_forall in Hunused. unfold revision_of.
    apply bool_decide_eq_false_2, Hunused. by apply list_elem_of_In. }
  split_and!; try done.
  - apply find_some in Hproject as [Hin Hcond].
    apply andb_true_iff in Hcond
      as [?%bool_decide_eq_true ?%bool_decide_eq_true].
    exists project. by rewrite list_elem_of_In.
  - unfold get_feedback. by rewrite Hfind, bool_decide_eq_true_2.
  - unfold create_revision.
    rewrite Hfind, bool_decide_eq_true_2, Hnone by done.
    by eexists _, _.
  - intros other Hne. unfold get_feedback, create_revision.
    by rewrite Hfind, bool_decide_eq_false_2.
Qed.
End revision_facts.
(** * The properties on concrete inputs *)

(** C1 on two passwords of 73 characters, 36 two-byte letters followed by
    "A" in one and by the three-byte euro sign in the other. *)
Lemma verify_password_get_password_hash_witness :
  ∃ h w',
    @get_password_hash sample_primitives (long_password 65) (sample_world [])
    = (Ok h, w')
    ∧ @verify_password sample_primitives (long_password 65) h = Ok true
    ∧ @verify_password sample_primitives (long_password 8364) h = Ok true.
Proof.
  apply (@verify_password_get_password_hash sample_primitives
           (long_password 65) (long_password 8364) (sample_world []));
    vm_compute; reflexivity.
Defined.

(** A different password does not verify against the sample hash, and a
    stored hash that is no bcrypt string makes verification raise. *)
Example verify_password_mismatch :
  @verify_password sample_primitives (bytes_of_string "Passw0rd2") sample_hash
  = Ok false
  ∧ @verify_password sample_primitives sample_password
      (bytes_of_string "plaintext") = Raise (ValueError "Invalid salt").
Proof. split; vm_compute; reflexivity. Qed.

(** C2 for Alice, at the default lifetimes. *)
Lemma decode_token_after_issue_witness :
  (∃ token w' claims w'',
     @create_access_token sample_primitives sample_settings
       (<["email" := PStr "alice@example.com"]> {["sub" := PStr alice_id]})
       None (sample_world [])
     = (Ok token, w')
     ∧ @decode_token sample_primitives sample_settings token w'
       = (Ok claims, w'')
     ∧ claims !! "sub" = Some (PStr alice_id)
     ∧ claims !! "email" = Some (PStr "alice@example.com")
     ∧ claims !! "type" = Some (PStr "access"))
  ∧ (∃ token w' claims w'',
       @create_refresh_token sample_primitives sample_settings
         {["sub" := PStr alice_id]} None (sample_world [])
       = (Ok token, w')
       ∧ @decode_token sample_primitives sample_settings token w'
         = (Ok claims, w'')
       ∧ claims !! "sub" = Some (PStr alice_id)
       ∧ claims !! "email" = None
       ∧ claims !! "type" = Some (PStr "refresh")).
Proof.
  apply (@decode_token_after_issue sample_primitives sample_settings alice_id
           "alice@example.com" (sample_world []));
    vm_compute; discriminate.
Defined.

(** A token of Alice, active and then inactive. *)
Lemma get_current_user_outcomes_witness :
  @get_current_user sample_primitives sample_settings
    (sample_token (access_claims alice_id)) (sample_world [alice])
  = (Ok alice, tick (sample_world [alice]))
  ∧ @get_current_user sample_primitives sample_settings
      (sample_token (access_claims alice_id))
      (sample_world [alice_inactive])
    = (Raise (HTTPError inactive_user), tick (sample_world [alice_inactive])).
Proof.
  split.
  - eapply (@get_current_user_outcomes sample_primitives sample_settings
              (sample_token (access_claims alice_id))
              (sample_world [alice]) (tick (sample_world [alice]))
              (access_claims alice_id) alice_id);
      vm_compute; reflexivity.
  - eapply (@get_current_user_outcomes sample_primitives sample_settings
              (sample_token (access_claims alice_id))
              (sample_world [alice_inactive])
              (tick (sample_world [alice_inactive]))
              (access_claims alice_id) alice_id);
      vm_compute; reflexivity.
Defined.

(** C4.  Where [get_current_user] misses the claim: an access token whose
    [sub] is no identifier gets a 401 "Could not validate credentials" that
    is not the rejection of an invalid token, for it lacks the
    [WWW-Authenticate] header that [decode_token] sets on that one; and for
    an access token that carries no [sub], the [TypeError] of [uuid.UUID]
    escapes the [except (JWTError, ValueError)] clause, so that the caller
    gets no rejection at all. *)
Lemma get_current_user_malformed_sub :
  (@get_current_user sample_primitives sample_settings
     (sample_token (access_claims "not-an-identifier"))
     (sample_world [alice])).1
  = Raise (HTTPError could_not_validate)
  ∧ (@get_current_user sample_primitives sample_settings
       (jwt.Garbled "not.a.token") (sample_world [alice])).1
    = Raise (HTTPError credentials_exception)
  ∧ HTTPError could_not_validate ≠ HTTPError credentials_exception
  ∧ (@get_current_user sample_primitives sample_settings
       (sample_token anonymous_claims) (sample_world [alice])).1
    = Raise (TypeError
        "one of the hex, bytes, bytes_le, fields, or int arguments must be given").
Proof. split_and!; (vm_compute; reflexivity) || discriminate. Qed.

(** C5: an unknown address against a wrong password, an inactive account,
    and a login that succeeds at clock reading 5000. *)
Lemma login_outcomes_witness :
  (@login sample_primitives sample_settings
     (LoginRequest.mk "nobody@example.com" sample_password)
     (sample_world [alice])).1
  = (@login sample_primitives sample_settings
       (LoginRequest.mk "alice@example.com" (bytes_of_string "Passw0rd2"))
       (sample_world [alice])).1
  ∧ @login sample_primitives sample_settings
      (LoginRequest.mk "alice@example.com" sample_password)
      (sample_world [alice_inactive])
    = (Raise (HTTPError inactive_user), sample_world [alice_inactive])
  ∧ ∃ pair w',
      @login sample_primitives sample_settings
        (LoginRequest.mk "alice@example.com" sample_password)
        (sample_world [alice])
      = (Ok pair, w')
      ∧ users w' = [User.set_last_login (Some 5000) alice].
Proof.
  destruct (@login_outcomes sample_primitives sample_settings)
    as (_ & _ & Hsame & Hinactive & Hactive).
  split_and!.
  - apply (Hsame (LoginRequest.mk "nobody@example.com" sample_password)
             (sample_world [alice])
             (LoginRequest.mk "alice@example.com" (bytes_of_string "Passw0rd2"))
             (sample_world [alice]) alice);
      vm_compute; reflexivity.
  - apply (Hinactive (LoginRequest.mk "alice@example.com" sample_password)
             (sample_world [alice_inactive]) alice_inactive);
      vm_compute; reflexivity.
  - destruct (Hactive (LoginRequest.mk "alice@example.com" sample_password)
                (sample_world [alice]) alice)
      as (pair & w' & Hrun & _ & Husers & _);
      [vm_compute; reflexivity..|].
    exists pair, w'. split; [exact Hrun|]. rewrite Husers.
    vm_compute. reflexivity.
Defined.

(** C6 for an access token of Alice. *)
Lemma refresh_token_wrong_type_witness :
  @refresh_token sample_primitives sample_settings
    (sample_token (access_claims alice_id)) (sample_world [alice])
  = (Raise (HTTPError invalid_refresh_token), tick (sample_world [alice])).
Proof.
  eapply (@refresh_token_wrong_type sample_primitives sample_settings
            (sample_token (access_claims alice_id))
            (sample_world [alice]) (tick (sample_world [alice]))
            (access_claims alice_id));
    vm_compute; reflexivity.
Defined.

(** C6, the claim as stated, fails: an access token handed to
    [refresh_token] is answered like a token that does not decode, not with
    the wrong-type error. *)
Lemma refresh_token_access_token_generic :
  (@refresh_token sample_primitives sample_settings
     (sample_token (access_claims alice_id))
     (sample_world [alice])).1
  = Raise (HTTPError invalid_refresh_token)
  ∧ (@refresh_token sample_primitives sample_settings
       (jwt.Garbled "not.a.token") (sample_world [alice])).1
    = Raise (HTTPError invalid_refresh_token)
  ∧ verify_token_type (access_claims alice_id) "refresh"
    = Raise (HTTPError (token_type_exception "refresh" (PStr "access")))
  ∧ HTTPError invalid_refresh_token
    ≠ HTTPError (token_type_exception "refresh" (PStr "access")).
Proof. split_and!; (vm_compute; reflexivity) || discriminate. Qed.

(** C7: the address of Alice is taken; the same address with a capital A is
    not. *)
Lemma register_outcomes_witness :
  (@register sample_primitives (UserCreate.mk "alice@example.com" None
     sample_password) (sample_world [alice])).1
  = Raise (HTTPError email_taken)
  ∧ ∃ user w',
      @register sample_primitives
        (UserCreate.mk "Alice@example.com" None sample_password)
        (sample_world [alice])
      = (Ok user, w')
      ∧ users w' = [alice; user]
      ∧ User.is_active user = true
      ∧ User.hashed_password user = sample_hash.
Proof.
  split.
  - apply (@register_outcomes sample_primitives
             (UserCreate.mk "alice@example.com" None sample_password)
             (sample_world [alice])).
    exists alice. split; [set_solver|reflexivity].
  - destruct (@register_outcomes sample_primitives
                (UserCreate.mk "Alice@example.com" None sample_password)
                (sample_world [alice]))
      as (_ & _ & Hnew).
    destruct Hnew as (hashed & w1 & user & w' & Hhash & Hrun & Husers
                      & Hpw & Hactive & _).
    { intros u Hu. apply list_elem_of_singleton in Hu as ->. discriminate. }
    { vm_compute. reflexivity. }
    exists user, w'. split_and!; [done..|].
    rewrite Hpw. vm_compute in Hhash. by injection Hhash as <- _.
Defined.

(** C10 for a password without an uppercase letter. *)
Lemma post_register_rejects_weak_password_witness :
  ∃ errors,
    @post_register sample_primitives "bob@example.com" None
      (bytes_of_string "password1") (sample_world [alice])
    = (Raise (RequestValidationError errors), sample_world [alice]).
Proof.
  apply (@post_register_rejects_weak_password sample_primitives
           "bob@example.com" None (bytes_of_string "password1")
           (sample_world [alice])).
  right; right; left. vm_compute. reflexivity.
Defined.

(** C8 at a setting other than the default: with [BCRYPT_ROUNDS = 10] the
    hash of "Passw0rd1" still carries cost 12. *)
Theorem get_password_hash_ignores_BCRYPT_ROUNDS `{Primitives} (w : world) :
  let settings := mkSettings "0123456789abcdef0123456789abcdef" "HS256" 30 7 10 in
  ∃ h hashed w',
    get_password_hash sample_password w = (Ok h, w')
    ∧ utf8_encode h = Some hashed
    ∧ bcrypt.cost_of hashed = Some 12
    ∧ BCRYPT_ROUNDS settings = 10.
Proof.
  intros settings.
  destruct (get_password_hash_cost settings sample_password w)
    as (h & hashed & w' & Hrun & Henc & Hcost); [vm_compute; reflexivity|].
  by exists h, hashed, w'.
Qed.

(** The response to the registration of Bob. *)
Lemma post_register_response_witness :
  (@post_register sample_primitives "bob@example.com" (Some "Bob"%string)
     sample_password (sample_world [alice])).1
  = Ok (UserResponse.mk "bob@example.com" (Some "Bob"%string) 2 true false
          5000 5001 None).
Proof.
  apply (@post_register_response sample_primitives "bob@example.com"
           (Some "Bob"%string) sample_password
           (UserCreate.mk "bob@example.com" (Some "Bob"%string) sample_password)
           (sample_world [alice]));
    vm_compute; reflexivity.
Defined.

(** The sample hash has the shape of a bcrypt hash: sixty characters, the
    first seven of which are [$2b$12$]. *)
Example sample_hash_shape :
  length sample_hash = 60%nat
  ∧ take 7 sample_hash = bytes_of_string "$2b$12$"
  ∧ bcrypt.cost_of sample_hash = Some 12.
Proof. by vm_compute. Qed.

(** The hash of "Passw0rd1" is not "Passw0rd1". *)
Lemma get_password_hash_differs_witness :
  @get_password_hash sample_primitives sample_password (sample_world [])
  = (Ok sample_hash, use_entropy 16 (sample_world []))
  ∧ sample_hash ≠ sample_password.
Proof.
  assert (@get_password_hash sample_primitives sample_password
            (sample_world [])
          = (Ok sample_hash, use_entropy 16 (sample_world []))) as Hrun
    by (vm_compute; reflexivity).
  split; [exact Hrun|].
  apply (@get_password_hash_differs sample_primitives sample_password
           (sample_world []) ltac:(vm_compute; discriminate) _ _ Hrun).
Defined.

(** A token of Alice is answered by [logout] and resolves afterwards. *)
Lemma logout_revokes_nothing_witness :
  @logout sample_primitives sample_settings
    (sample_token (access_claims alice_id)) (sample_world [alice])
  = (Ok {["message" := PStr "Successfully logged out"]},
     tick (sample_world [alice]))
  ∧ users (tick (sample_world [alice])) = users (sample_world [alice])
  ∧ (@jwt.expired (sample_token (access_claims alice_id))
       (now (tick (sample_world [alice]))) = false →
     (@get_current_user sample_primitives sample_settings
        (sample_token (access_claims alice_id))
        (tick (sample_world [alice]))).1 = Ok alice).
Proof.
  apply (@logout_revokes_nothing sample_primitives sample_settings
           (sample_token (access_claims alice_id)) (sample_world [alice])
           (tick (sample_world [alice])) alice).
  vm_compute; reflexivity.
Defined.

(** Alice logs in at clock reading 5000 and resolves her access token. *)
Lemma login_then_get_current_user_witness :
  ∃ user me,
    find (has_email (LoginRequest.email alice_login)) (users alice_world)
    = Some user
    ∧ @get_current_user sample_primitives sample_settings
        (Token.access_token alice_tokens) alice_logged_in
      = (Ok (User.set_last_login (Some (now alice_world)) user),
         tick alice_logged_in)
    ∧ @get_current_user_info sample_primitives sample_settings
        (Token.access_token alice_tokens) alice_logged_in
      = (Ok me, tick alice_logged_in)
    ∧ UserResponse.id me = User.id user
    ∧ UserResponse.email me = LoginRequest.email alice_login
    ∧ UserResponse.last_login me = Some (now alice_world).
Proof.
  apply (@login_then_get_current_user sample_primitives sample_settings
           alice_login alice_world alice_logged_in alice_logged_in
           alice_tokens).
  - apply NoDup_singleton.
  - repeat constructor.
  - vm_compute; reflexivity.
  - reflexivity.
  - vm_compute; discriminate.
Defined.

(** Alice exchanges a refresh token twice. *)
Lemma refresh_token_reusable_witness :
  users (tick (tick (tick (tick (tick alice_world))))) = users alice_world
  ∧ ∃ tokens' w3,
      @refresh_token sample_primitives sample_settings
        (sample_token (refresh_claims alice_id))
        (tick (tick (tick (tick (tick alice_world)))))
      = (Ok tokens', w3)
      ∧ users w3 = users alice_world
      ∧ jwt.claims_of (Token.access_token tokens') !! "sub"
        = jwt.claims_of (Token.access_token alice_tokens) !! "sub"
      ∧ jwt.claims_of (Token.access_token tokens') !! "email"
        = jwt.claims_of (Token.access_token alice_tokens) !! "email"
      ∧ jwt.claims_of (Token.refresh_token tokens') !! "sub"
        = jwt.claims_of (Token.refresh_token alice_tokens) !! "sub".
Proof.
  apply (@refresh_token_reusable sample_primitives sample_settings
           (sample_token (refresh_claims alice_id)) alice_world
           (tick (tick (tick (tick (tick alice_world)))))
           (tick (tick (tick (tick (tick alice_world)))))
           alice_tokens).
  - vm_compute; reflexivity.
  - reflexivity.
  - vm_compute; reflexivity.
Defined.

(** Bob registers next to Alice. *)
Lemma register_keeps_emails_distinct_witness :
  NoDup (User.email <$> users (@register sample_primitives bob_in alice_world).2)
  ∧ (users (@register sample_primitives bob_in alice_world).2
     = users alice_world
     ∨ ∃ user,
         (@register sample_primitives bob_in alice_world).1 = Ok user
         ∧ users (@register sample_primitives bob_in alice_world).2
           = users alice_world ++ [user]).
Proof.
  apply (@register_keeps_emails_distinct sample_primitives bob_in alice_world).
  apply NoDup_singleton.
Defined.

(** Bob registers and logs in. *)
Lemma register_then_login_witness :
  ∃ tokens w2,
    @login sample_primitives sample_settings
      (LoginRequest.mk (UserCreate.email bob_in) (UserCreate.password bob_in))
      bob_registered
    = (Ok tokens, w2)
    ∧ jwt.claims_of (Token.access_token tokens) !! "sub"
      = Some (PStr (sample_uuid_str (User.id bob)))
    ∧ jwt.claims_of (Token.access_token tokens) !! "email"
      = Some (PStr (UserCreate.email bob_in))
    ∧ jwt.claims_of (Token.refresh_token tokens) !! "sub"
      = Some (PStr (sample_uuid_str (User.id bob))).
Proof.
  apply (@register_then_login sample_primitives sample_settings bob_in
           alice_world bob_registered bob).
  vm_compute; reflexivity.
Defined.

(** Two hosts, an item of white space between them. *)
Lemma parse_allowed_hosts_text_witness :
  parse_cors_methods ascii_isspace (RawStr sample_hosts)
  = parse_allowed_hosts ascii_isspace (RawStr sample_hosts)
  ∧ parse_cors_headers ascii_isspace (RawStr sample_hosts)
    = parse_allowed_hosts ascii_isspace (RawStr sample_hosts)
  ∧ Forall (clean_item ascii_isspace)
      (parse_allowed_hosts ascii_isspace (RawStr sample_hosts))
  ∧ (parse_allowed_hosts ascii_isspace (RawStr sample_hosts) ≠ [] →
       parse_allowed_hosts ascii_isspace
         (RawStr
            (str_join 44
               (parse_allowed_hosts ascii_isspace (RawStr sample_hosts))))
       = parse_allowed_hosts ascii_isspace (RawStr sample_hosts))
  ∧ (parse_allowed_hosts ascii_isspace (RawStr sample_hosts) = []
       ↔ Forall (λ c, c = 44 ∨ ascii_isspace c = true) sample_hosts)
  ∧ parse_allowed_hosts ascii_isspace (RawStr []) = wildcard.
Proof.
  apply (parse_allowed_hosts_text ascii_isspace sample_hosts).
  discriminate.
Defined.

Example parse_allowed_hosts_examples :
  parse_allowed_hosts ascii_isspace (RawStr sample_hosts)
  = map bytes_of_string ["example.com"; "api.example.com"]%string
  ∧ parse_allowed_hosts ascii_isspace (RawStr (bytes_of_string " , ")) = []
  ∧ parse_cors_origins ascii_isspace (RawStr (bytes_of_string "  "))
    = default_origins
  ∧ parse_cors_origins ascii_isspace (RawStr (bytes_of_string " , ")) = [].
Proof. split_and!; vm_compute; reflexivity. Qed.

(** A production configuration with the built-in origins. *)
Lemma validate_settings_localhost_witness :
  (validate_settings ascii_lower production_settings = Ok ()
     ↔ bytes_of_string "localhost"
       ∉ config.ALLOWED_ORIGINS production_settings)
  ∧ (bytes_of_string "localhost"
       ∈ config.ALLOWED_ORIGINS production_settings →
     validate_settings ascii_lower production_settings
     = Raise (ValueError
         ("Configuration validation failed:" +:+ newline
            +:+ "  - localhost should not be in ALLOWED_ORIGINS in production")))
  ∧ (config.ALLOWED_ORIGINS production_settings = default_origins →
     validate_settings ascii_lower production_settings = Ok ()).
Proof.
  apply (validate_settings_localhost ascii_lower production_settings).
  - vm_compute; reflexivity.
  - reflexivity.
  - reflexivity.
  - vm_compute. lia.
  - reflexivity.
  - reflexivity.
  - reflexivity.
  - discriminate.
Defined.

(** Alice creates a second project. *)
Lemma create_project_then_get_witness :
  ∃ project w',
    create_project logo_in alice sample_projects alice_world
    = (Ok (project, sample_projects ++ [project]), w')
    ∧ Project.user_id project = User.id alice
    ∧ (Project.name project, Project.description project,
       Project.status project)
      = (ProjectCreate.name logo_in, ProjectCreate.description logo_in,
         ProjectCreate.status logo_in)
    ∧ get_project (Project.id project) alice (sample_projects ++ [project])
      = Ok project
    ∧ (∀ other, User.id other ≠ User.id alice →
         get_project (Project.id project) other (sample_projects ++ [project])
         = Raise (HTTPError project_not_found))
    ∧ ∀ project_id user, project_id ≠ Project.id project →
        get_project project_id user (sample_projects ++ [project])
        = get_project project_id user sample_projects.
Proof.
  apply (create_project_then_get logo_in alice sample_projects alice_world).
  repeat constructor. discriminate.
Defined.

(** Alice uploads a revision for a feedback that has versions 1 and 3. *)
Lemma create_revision_versions_witness :
  ∃ revision revisions' w',
    create_revision 10 (Some "bigger"%string) (Some sample_upload) alice
      sample_feedbacks sample_revisions alice_world
    = (Ok (revision, revisions'), w')
    ∧ Revision.version revision = 4
    ∧ revisions' = sample_revisions ++ [revision]
    ∧ Revision.feedback_id revision = 10
    ∧ Revision.status revision = "pending"%string
    ∧ Revision.approved_at revision = None
    ∧ (∃ feedback, feedback ∈ sample_feedbacks
         ∧ Feedback.id feedback = 10
         ∧ Feedback.user_id feedback = User.id alice)
    ∧ (∀ r, r ∈ sample_revisions → Revision.feedback_id r = 10 →
         Revision.version r < Revision.version revision)
    ∧ ((Revision.version revision = 1
          ∧ ∀ r, r ∈ sample_revisions → Revision.feedback_id r ≠ 10)
       ∨ ∃ r, r ∈ sample_revisions ∧ Revision.feedback_id r = 10
           ∧ Revision.version revision = Revision.version r + 1)
    ∧ (NoDup ((λ r, (Revision.feedback_id r, Revision.version r))
                <$> sample_revisions) →
       NoDup ((λ r, (Revision.feedback_id r, Revision.version r))
                <$> revisions')).
Proof.
  eexists _, _, _. split; [vm_compute; reflexivity|].
  split; [reflexivity|].
  eapply (create_revision_versions 10 (Some "bigger"%string)
            (Some sample_upload) alice sample_feedbacks sample_revisions
            _ _ alice_world _).
  vm_compute; reflexivity.
Defined.

(** Alice has one unread notification and Bob one; Alice marks hers read,
    one by one and all at once. *)
Example notifications_examples :
  get_unread_count alice sample_notifications = {["unread_count" := PInt 1]}
  ∧ get_unread_count bob sample_notifications = {["unread_count" := PInt 1]}
  ∧ (let! marked := mark_all_notifications_read alice sample_notifications in
     ret (get_unread_count alice marked.2, get_unread_count bob marked.2))
      alice_world
    = (Ok ({["unread_count" := PInt 0]}, {["unread_count" := PInt 1]}),
       tick alice_world)
  ∧ (let! marked := mark_notification_read 30 alice sample_notifications in
     ret (Notification.read_at marked.1)) alice_world
    = (Ok (Some 5000), tick alice_world)
  ∧ (mark_notification_read 31 alice sample_notifications alice_world).1
    = Raise (HTTPError notification_not_found)
  ∧ (let! marked := mark_notification_read 32 alice sample_notifications in
     ret (Notification.read_at marked.1)) alice_world
    = (Ok (Some 4300), alice_world).
Proof. split_and!; vm_compute; reflexivity. Qed.

(** A second upload for feedback 10 gets version 5. *)
Lemma create_revision_consecutive_witness :
  ∃ revision2 w2,
    create_revision 10 None None alice sample_feedbacks
      (sample_revisions ++ [uploaded_revision]) after_upload
    = (Ok (revision2, (sample_revisions ++ [uploaded_revision])
                        ++ [revision2]), w2)
    ∧ Revision.version revision2 = Revision.version uploaded_revision + 1.
Proof.
  apply (create_revision_consecutive 10 (Some "bigger"%string) None
           (Some sample_upload) None alice sample_feedbacks sample_revisions
           (sample_revisions ++ [uploaded_revision]) uploaded_revision
           alice_world after_upload).
  vm_compute; reflexivity.
Defined.

(** Alice gives feedback on her project and uploads a first revision. *)
Lemma create_feedback_then_revision_witness :
  (∃ project, project ∈ sample_projects
     ∧ Project.id project = FeedbackCreate.project_id pop_in
     ∧ Project.user_id project = User.id alice)
  ∧ sample_feedbacks ++ [pop_feedback] = sample_feedbacks ++ [pop_feedback]
  ∧ Feedback.user_id pop_feedback = User.id alice
  ∧ Feedback.status pop_feedback = "pending"%string
  ∧ get_feedback (Feedback.id pop_feedback) alice
      (sample_feedbacks ++ [pop_feedback]) = Ok pop_feedback
  ∧ (∃ revision w2,
       create_revision (Feedback.id pop_feedback) None (Some sample_upload)
         alice (sample_feedbacks ++ [pop_feedback]) sample_revisions
         after_feedback
       = (Ok (revision, sample_revisions ++ [revision]), w2)
       ∧ Revision.version revision = 1)
  ∧ ∀ other, User.id other ≠ User.id alice →
      get_feedback (Feedback.id pop_feedback) other
        (sample_feedbacks ++ [pop_feedback])
      = Raise (HTTPError feedback_not_found)
      ∧ create_revision (Feedback.id pop_feedback) None (Some sample_upload)
          other (sample_feedbacks ++ [pop_feedback]) sample_revisions
          after_feedback
        = (Raise (HTTPError feedback_not_found), after_feedback).
Proof.
  apply (create_feedback_then_revision pop_in None (Some sample_upload) alice
           sample_projects sample_feedbacks
           (sample_feedbacks ++ [pop_feedback]) sample_revisions pop_feedback
           alice_world after_feedback).
  - repeat constructor. discriminate.
  - repeat constructor; discriminate.
  - vm_compute; reflexivity.
Defined.

(** Alice logs in and exchanges the refresh token she received. *)
Lemma login_then_refresh_token_witness :
  ∃ tokens' w3,
    @refresh_token sample_primitives sample_settings
      (Token.refresh_token alice_tokens) alice_logged_in
    = (Ok tokens', w3)
    ∧ users w3 = users alice_logged_in
    ∧ jwt.claims_of (Token.access_token tokens') !! "sub"
      = jwt.claims_of (Token.access_token alice_tokens) !! "sub"
    ∧ jwt.claims_of (Token.access_token tokens') !! "email"
      = Some (PStr (LoginRequest.email alice_login))
    ∧ jwt.claims_of (Token.refresh_token tokens') !! "sub"
      = jwt.claims_of (Token.refresh_token alice_tokens) !! "sub".
Proof.
  apply (@login_then_refresh_token sample_primitives sample_settings
           alice_login alice_world alice_logged_in alice_logged_in
           alice_tokens).
  - apply NoDup_singleton.
  - intros a b Ha Hb. apply list_elem_of_singleton in Ha, Hb. subst a b.
    reflexivity.
  - vm_compute; reflexivity.
  - reflexivity.
  - vm_compute; discriminate.
Defined.

(** The tokens of Alice, decoded two clock readings after they were issued. *)
Lemma issued_token_valid_until_witness :
  ∃ access refresh,
    @create_access_token sample_primitives sample_settings
      (<["email" := PStr "alice@example.com"]> {["sub" := PStr alice_id]})
      None alice_world
    = (Ok access, tick (tick alice_world))
    ∧ @create_refresh_token sample_primitives sample_settings
        (<["email" := PStr "alice@example.com"]> {["sub" := PStr alice_id]})
        None alice_world
      = (Ok refresh, tick (tick alice_world))
    ∧ (is_ok (@decode_token sample_primitives sample_settings access
                (tick (tick alice_world))).1 = true
         ↔ now (tick (tick alice_world))
           ≤ now alice_world
             + token_lifetime
                 (60 * ACCESS_TOKEN_EXPIRE_MINUTES sample_settings) None)
    ∧ (is_ok (@decode_token sample_primitives sample_settings refresh
                (tick (tick alice_world))).1 = true
         ↔ now (tick (tick alice_world))
           ≤ now alice_world
             + token_lifetime
                 (86400 * REFRESH_TOKEN_EXPIRE_DAYS sample_settings) None)
    ∧ (is_ok (@decode_token sample_primitives sample_settings access
                (tick (tick alice_world))).1 = true →
         (@decode_token sample_primitives sample_settings access
            (tick (tick alice_world))).1 = Ok (jwt.claims_of access))
    ∧ (is_ok (@decode_token sample_primitives sample_settings refresh
                (tick (tick alice_world))).1 = true →
         (@decode_token sample_primitives sample_settings refresh
            (tick (tick alice_world))).1 = Ok (jwt.claims_of refresh)).
Proof.
  apply (@issued_token_valid_until sample_primitives sample_settings
           (<["email" := PStr "alice@example.com"]> {["sub" := PStr alice_id]})
           None alice_world (tick (tick alice_world))).
  split_and!; [vm_compute; reflexivity..|].
  right. exists alice_id. vm_compute; reflexivity.
Defined.
